(** * schlog: a shallow embedding of [src/index.ts]

    The logger of [index.ts] filters messages by severity, renders them
    either for a terminal or as a JSON record and writes them to one of
    the two console streams.  This file embeds the class [Logger] and the
    ECMAScript built-ins it calls, and proves the properties of the
    specification about it.

    Conventions of the embedding:
    - a JavaScript string is the list of its UTF-16 code units;
    - a JavaScript number is kept as the mathematical integer it denotes,
      with [NaN] apart: the source only tests [isNaN], compares with [>=]
      and compares with [===] against the priorities 0..3, and rounding
      an integer to a double never moves it into or out of that range;
      [-0] is [0], as [0 === -0]; where the digits of a number are
      printed, the number is taken to be a safe integer;
    - [undefined] is [None]; an optional boolean parameter is a [bool],
      left out when [false];
    - a message is a string, as [log] declares it;
    - the methods run in a state monad over the logger's two fields, the
      console and the clock;
    - chalk, moment and [String.prototype.toUpperCase] are collaborators
      the code receives: the theorems hold for each of them. *)

From Stdlib Require Import ZArith NArith List Bool Lia String Ascii.
From Stdlib Require DecimalN DecimalZ.
Import ListNotations.

(** ** JavaScript built-ins *)

Module JS.

Definition jsstring := list N.

(** A literal of the source, given by its ASCII text. *)
Definition js (s : string) : jsstring :=
  map N_of_ascii (list_ascii_of_string s).

(** [a === b] on strings. *)
Fixpoint streq (a b : jsstring) : bool :=
  match a, b with
  | [], [] => true
  | x :: a', y :: b' => (x =? y)%N && streq a' b'
  | _, _ => false
  end.

(** Numbers, as far as the source observes them. *)
Inductive Number :=
| NaN
| Num (z : Z).

Definition isNaN (n : Number) : bool :=
  match n with NaN => true | Num _ => false end.

(** [a === b] on numbers: [NaN] equals nothing. *)
Definition numeq (a b : Number) : bool :=
  match a, b with
  | Num x, Num y => (x =? y)%Z
  | _, _ => false
  end.

(** WhiteSpace and LineTerminator code points (StrWhiteSpaceChar). *)
Definition isStrWhiteSpaceChar (c : N) : bool :=
  ((c =? 0x09) || (c =? 0x0A) || (c =? 0x0B) || (c =? 0x0C) || (c =? 0x0D)
   || (c =? 0x20) || (c =? 0xA0) || (c =? 0x1680)
   || ((0x2000 <=? c) && (c <=? 0x200A))
   || (c =? 0x2028) || (c =? 0x2029) || (c =? 0x202F) || (c =? 0x205F)
   || (c =? 0x3000) || (c =? 0xFEFF))%N.

(** TrimString(s, start). *)
Fixpoint trimStart (s : jsstring) : jsstring :=
  match s with
  | c :: t => if isStrWhiteSpaceChar c then trimStart t else s
  | [] => []
  end.

(** The value of a code unit as a digit of radix [R] (10 or 16). *)
Definition digitValue (R c : N) : option N :=
  (if (48 <=? c) && (c <=? 57) then Some (c - 48)
   else if (R =? 16) && (97 <=? c) && (c <=? 102) then Some (c - 87)
   else if (R =? 16) && (65 <=? c) && (c <=? 70) then Some (c - 55)
   else None)%N.

(** The longest prefix of radix-[R] digits, as digit values. *)
Fixpoint radixDigits (R : N) (s : jsstring) : list N :=
  match s with
  | c :: t =>
      match digitValue R c with
      | Some d => d :: radixDigits R t
      | None => []
      end
  | [] => []
  end.

Definition mathInt (R : N) (ds : list N) : N :=
  fold_left (fun acc d => acc * R + d)%N ds 0%N.

(** [parseInt(string)] with the radix left undefined. *)
Definition parseInt (string : jsstring) : Number :=
  let S0 := trimStart string in
  let sign := match S0 with c :: _ => if (c =? 45)%N then (-1)%Z else 1%Z | [] => 1%Z end in
  let S1 := match S0 with
            | c :: t => if ((c =? 43) || (c =? 45))%N then t else S0
            | [] => S0
            end in
  let '(R, S2) := match S1 with
                  | z :: x :: t =>
                      if ((z =? 48) && ((x =? 120) || (x =? 88)))%N
                      then (16%N, t) else (10%N, S1)
                  | _ => (10%N, S1)
                  end in
  match radixDigits R S2 with
  | [] => NaN
  | ds => Num (sign * Z.of_N (mathInt R ds))
  end.

(** [array.findIndex(p)]: the first index whose element satisfies [p],
    or -1. *)
Fixpoint findIndex {A} (p : A -> bool) (l : list A) : Z :=
  match l with
  | [] => (-1)%Z
  | x :: t =>
      if p x then 0%Z
      else let i := findIndex p t in if (i <? 0)%Z then (-1)%Z else (i + 1)%Z
  end.

(** [array[i]]: [undefined] outside the array. *)
Definition index {A} (l : list A) (i : Z) : option A :=
  if (i <? 0)%Z then None else nth_error l (Z.to_nat i).

End JS.

Import JS.

(** ** JSON: [JSON.stringify] on the values the source passes, and a
    parser of JSON text to read its output back *)

Module JSON.

(** The JavaScript values that reach [JSON.stringify] from [formatJson]:
    strings, numbers, functions (a chalk style is one) and objects that
    have no [toJSON] method and no array-index key, as the record of
    [formatJson] and a [LogLevel] instance are; their own properties
    come in creation order. *)
#[warnings="-register-all"]
Inductive value :=
| VString (s : jsstring)
| VNumber (z : Z)
| VFunction (f : jsstring -> jsstring)
| VObject (props : list (jsstring * value)).

Definition hexDigit (d : N) : N :=
  (if d <? 10 then 48 + d else 87 + d)%N.

(** UnicodeEscape(C): backslash, [u] and four lowercase hex digits. *)
Definition UnicodeEscape (c : N) : jsstring :=
  [92; 117; hexDigit (c / 4096 mod 16); hexDigit (c / 256 mod 16);
   hexDigit (c / 16 mod 16); hexDigit (c mod 16)]%N.

Definition isLeadingSurrogate (c : N) : bool := ((0xD800 <=? c) && (c <=? 0xDBFF))%N.
Definition isTrailingSurrogate (c : N) : bool := ((0xDC00 <=? c) && (c <=? 0xDFFF))%N.

(** One code unit that is not half of a surrogate pair. *)
Definition quoteUnit (c : N) : jsstring :=
  (if c =? 8 then [92; 98]
   else if c =? 9 then [92; 116]
   else if c =? 10 then [92; 110]
   else if c =? 12 then [92; 102]
   else if c =? 13 then [92; 114]
   else if c =? 34 then [92; 34]
   else if c =? 92 then [92; 92]
   else if (c <? 32) || isLeadingSurrogate c || isTrailingSurrogate c
        then UnicodeEscape c
   else [c])%N.

(** The characters between the quotes of QuoteJSONString: the string is
    read code point by code point, so that a well-formed surrogate
    pair is copied and a lone surrogate is escaped. *)
Fixpoint quoteChars (s : jsstring) : jsstring :=
  match s with
  | [] => []
  | c :: t =>
      match t with
      | d :: t' =>
          if isLeadingSurrogate c && isTrailingSurrogate d
          then c :: d :: quoteChars t'
          else quoteUnit c ++ quoteChars t
      | [] => quoteUnit c
      end
  end.

Definition QuoteJSONString (s : jsstring) : jsstring :=
  34%N :: quoteChars s ++ [34%N].

Fixpoint uintUnits (d : Decimal.uint) : jsstring :=
  match d with
  | Decimal.Nil => []
  | Decimal.D0 d => 48 :: uintUnits d
  | Decimal.D1 d => 49 :: uintUnits d
  | Decimal.D2 d => 50 :: uintUnits d
  | Decimal.D3 d => 51 :: uintUnits d
  | Decimal.D4 d => 52 :: uintUnits d
  | Decimal.D5 d => 53 :: uintUnits d
  | Decimal.D6 d => 54 :: uintUnits d
  | Decimal.D7 d => 55 :: uintUnits d
  | Decimal.D8 d => 56 :: uintUnits d
  | Decimal.D9 d => 57 :: uintUnits d
  end%N.

(** Number::toString of an integer: its decimal digits.  That is what
    JavaScript prints for the safe integers, of absolute value below
    2^53, where a number is the integer it denotes; beyond them it
    rounds, and from 10^21 on it prints an exponent.  The statements
    that read the digits of a priority are made for safe integers; the
    priorities of the registry are 0 to 3. *)
Definition NumberToString (z : Z) : jsstring :=
  match Z.to_int z with
  | Decimal.Pos d => uintUnits d
  | Decimal.Neg d => 45%N :: uintUnits d
  end.

Fixpoint join (sep : jsstring) (l : list jsstring) : jsstring :=
  match l with
  | [] => []
  | [x] => x
  | x :: t => x ++ sep ++ join sep t
  end.

(** SerializeJSONProperty without gap or replacer; [None] is
    [undefined], which SerializeJSONObject leaves out. *)
Fixpoint SerializeJSONProperty (v : value) : option jsstring :=
  match v with
  | VString s => Some (QuoteJSONString s)
  | VNumber z => Some (NumberToString z)
  | VFunction _ => None
  | VObject props =>
      let fix members (ps : list (jsstring * value)) : list jsstring :=
        match ps with
        | [] => []
        | (k, p) :: ps' =>
            match SerializeJSONProperty p with
            | Some strP => (QuoteJSONString k ++ js ":" ++ strP) :: members ps'
            | None => members ps'
            end
        end in
      Some (js "{" ++ join (js ",") (members props) ++ js "}")
  end.

Definition stringify (v : value) : option jsstring := SerializeJSONProperty v.

(** [JSON.stringify] of an object, which is always a string. *)
Definition stringifyObject (props : list (jsstring * value)) : jsstring :=
  match stringify (VObject props) with
  | Some s => s
  | None => []
  end.

(** *** Reading JSON text

    The grammar of ECMA-404 restricted to strings, integers and
    objects, without insignificant white space: the texts
    [stringify] produces above. *)

#[warnings="-register-all"]
Inductive json :=
| JString (s : jsstring)
| JNumber (z : Z)
| JObject (members : list (jsstring * json)).

Definition hexValue (c : N) : option N := digitValue 16 c.

Definition hex4 (a b c d : N) : option N :=
  match hexValue a, hexValue b, hexValue c, hexValue d with
  | Some x, Some y, Some z, Some w => Some (((x * 16 + y) * 16 + z) * 16 + w)%N
  | _, _, _, _ => None
  end.

(** The character an escape letter stands for. *)
Definition unescape (e : N) : option N :=
  (if e =? 34 then Some 34
   else if e =? 92 then Some 92
   else if e =? 47 then Some 47
   else if e =? 98 then Some 8
   else if e =? 102 then Some 12
   else if e =? 110 then Some 10
   else if e =? 114 then Some 13
   else if e =? 116 then Some 9
   else None)%N.

(** The characters of a string up to its closing quote. *)
Fixpoint parseChars (s : jsstring) : option (jsstring * jsstring) :=
  match s with
  | [] => None
  | c :: t =>
      if (c =? 34)%N then Some ([], t)
      else if (c =? 92)%N then
        match t with
        | [] => None
        | e :: t1 =>
            if (e =? 117)%N then
              match t1 with
              | a :: b :: x :: y :: t2 =>
                  match hex4 a b x y, parseChars t2 with
                  | Some u, Some (r, rest) => Some (u :: r, rest)
                  | _, _ => None
                  end
              | _ => None
              end
            else
              match unescape e, parseChars t1 with
              | Some u, Some (r, rest) => Some (u :: r, rest)
              | _, _ => None
              end
        end
      else if (c <? 32)%N then None
      else
        match parseChars t with
        | Some (r, rest) => Some (c :: r, rest)
        | None => None
        end
  end.

Definition unitDigit (c : N) : option (Decimal.uint -> Decimal.uint) :=
  (if c =? 48 then Some Decimal.D0
   else if c =? 49 then Some Decimal.D1
   else if c =? 50 then Some Decimal.D2
   else if c =? 51 then Some Decimal.D3
   else if c =? 52 then Some Decimal.D4
   else if c =? 53 then Some Decimal.D5
   else if c =? 54 then Some Decimal.D6
   else if c =? 55 then Some Decimal.D7
   else if c =? 56 then Some Decimal.D8
   else if c =? 57 then Some Decimal.D9
   else None)%N.

(** The longest prefix of decimal digits. *)
Fixpoint parseDigits (s : jsstring) : Decimal.uint * jsstring :=
  match s with
  | [] => (Decimal.Nil, [])
  | c :: t =>
      match unitDigit c with
      | Some D => let '(d, rest) := parseDigits t in (D d, rest)
      | None => (Decimal.Nil, s)
      end
  end.

(** int of the grammar: one digit, or digits that do not start with
    zero. *)
Definition wellFormedInt (d : Decimal.uint) : bool :=
  match d with
  | Decimal.Nil => false
  | Decimal.D0 Decimal.Nil => true
  | Decimal.D0 _ => false
  | _ => true
  end.

Definition parseNumber (s : jsstring) : option (Z * jsstring) :=
  let '(neg, s') := match s with
                    | c :: t => if (c =? 45)%N then (true, t) else (false, s)
                    | [] => (false, s)
                    end in
  let '(d, rest) := parseDigits s' in
  if wellFormedInt d
  then Some (Z.of_int (if neg then Decimal.Neg d else Decimal.Pos d), rest)
  else None.

(** A value, and the members of an object after its opening brace;
    [fuel] bounds the number of nested calls. *)
Fixpoint parseValue (fuel : nat) (s : jsstring) : option (json * jsstring) :=
  match fuel with
  | O => None
  | S fuel' =>
      match s with
      | [] => None
      | c :: t =>
          if (c =? 34)%N then
            match parseChars t with
            | Some (str, rest) => Some (JString str, rest)
            | None => None
            end
          else if (c =? 123)%N then
            match t with
            | [] => None
            | c' :: t' =>
                if (c' =? 125)%N then Some (JObject [], t')
                else
                  match parseMembers fuel' t with
                  | Some (ms, rest) => Some (JObject ms, rest)
                  | None => None
                  end
            end
          else
            match parseNumber s with
            | Some (z, rest) => Some (JNumber z, rest)
            | None => None
            end
      end
  end
with parseMembers (fuel : nat) (s : jsstring)
  : option (list (jsstring * json) * jsstring) :=
  match fuel with
  | O => None
  | S fuel' =>
      match s with
      | [] => None
      | c :: t =>
          if (c =? 34)%N then
            match parseChars t with
            | Some (k, c1 :: r1) =>
                if (c1 =? 58)%N then
                  match parseValue fuel' r1 with
                  | Some (v, c2 :: r2) =>
                      if (c2 =? 44)%N then
                        match parseMembers fuel' r2 with
                        | Some (ms, rest) => Some ((k, v) :: ms, rest)
                        | None => None
                        end
                      else if (c2 =? 125)%N then Some ([(k, v)], r2)
                      else None
                  | _ => None
                  end
                else None
            | _ => None
            end
          else None
      end
  end.

(** What a value is once it has gone through JSON: a function has no
    image, and a property whose value has none is left out. *)
Definition keep (k : jsstring) (o : option json) (ms : list (jsstring * json))
  : list (jsstring * json) :=
  match o with
  | Some j => (k, j) :: ms
  | None => ms
  end.

Fixpoint toJson (v : value) : option json :=
  match v with
  | VString s => Some (JString s)
  | VNumber z => Some (JNumber z)
  | VFunction _ => None
  | VObject props =>
      let fix members (ps : list (jsstring * value)) : list (jsstring * json) :=
        match ps with
        | [] => []
        | (k, p) :: ps' => keep k (toJson p) (members ps')
        end in
      Some (JObject (members props))
  end.

(** The fuel that reads a value back: its nesting, members counted. *)
Fixpoint need (j : json) : nat :=
  match j with
  | JString _ | JNumber _ => 1
  | JObject ms =>
      let fix needMembers (l : list (jsstring * json)) : nat :=
        match l with
        | [] => 0
        | (_, j') :: l' => S (Nat.max (need j') (needMembers l'))
        end in
      S (needMembers ms)
  end.

(** The local functions of the definitions above, by name. *)
Fixpoint serializeMembers (ps : list (jsstring * value)) : list jsstring :=
  match ps with
  | [] => []
  | (k, p) :: ps' =>
      match SerializeJSONProperty p with
      | Some strP => (QuoteJSONString k ++ js ":" ++ strP) :: serializeMembers ps'
      | None => serializeMembers ps'
      end
  end.

Fixpoint jsonMembers (ps : list (jsstring * value)) : list (jsstring * json) :=
  match ps with
  | [] => []
  | (k, p) :: ps' => keep k (toJson p) (jsonMembers ps')
  end.

Fixpoint needMembers (l : list (jsstring * json)) : nat :=
  match l with
  | [] => 0
  | (_, j') :: l' => S (Nat.max (need j') (needMembers l'))
  end.

(** A text after which a number ends: no digit comes next. *)
Definition endsNumber (rest : jsstring) : Prop :=
  match rest with
  | [] => True
  | c :: _ => unitDigit c = None
  end.

(** [s] is a text of [j]: it has no control character, and the parser
    reads [j] from it, before any text that ends a number, with fuel
    that the length of [s] provides. *)
Definition readsBack (s : jsstring) (j : json) : Prop :=
  Forall (fun c => 32 <= c)%N s
  /\ need j <= List.length s
  /\ forall fuel rest, need j <= fuel -> endsNumber rest ->
       parseValue fuel (s ++ rest) = Some (j, rest).

(** [stringify] and [toJson] agree on [v]. *)
Definition faithful (v : value) : Prop :=
  match toJson v with
  | None => SerializeJSONProperty v = None
  | Some j => exists s, SerializeJSONProperty v = Some s /\ readsBack s j
  end.

(** [JSON.parse]: a value and nothing after it.  Every call of the
    parser consumes a code unit, so the length of the text is fuel
    enough. *)
Definition parse (s : jsstring) : option json :=
  match parseValue (S (List.length s)) s with
  | Some (j, []) => Some j
  | _ => None
  end.

End JSON.

Import JSON.

(** ** The collaborators: chalk, moment, [toUpperCase] *)

Class Collaborators := {
  (** what [moment()] returns: the current instant *)
  Moment : Type;
  (** [m.format(pattern)] *)
  moment_format : Moment -> jsstring -> jsstring;
  (** [s.toUpperCase()] *)
  toUpperCase : jsstring -> jsstring;
  chalk_red_bold : jsstring -> jsstring;
  chalk_yellow_bold : jsstring -> jsstring;
  chalk_green_bold : jsstring -> jsstring;
  chalk_blue_bold : jsstring -> jsstring;
  chalk_gray : jsstring -> jsstring
}.

(** ** [LogScope] and [LogLevel]

    [priority] is an integer, as in the data model of the specification
    and in the four levels of the registry. *)

Inductive LogScope :=
| STDOUT
| STDERR.

(** The string an enum member stands for at run time. *)
Definition LogScope_value (s : LogScope) : jsstring :=
  match s with
  | STDOUT => js "stdout"
  | STDERR => js "stderr"
  end.

Definition LogScope_eqb (a b : LogScope) : bool :=
  match a, b with
  | STDOUT, STDOUT | STDERR, STDERR => true
  | _, _ => false
  end.

Record LogLevel := mkLogLevel {
  name : jsstring;
  color : jsstring -> jsstring;
  priority : Z;
  scope : LogScope
}.

(** A [LogLevel] instance as [JSON.stringify] sees it: its own properties
    in the order the constructor assigns them. *)
Definition LogLevel_value (l : LogLevel) : value :=
  VObject [ (js "name", VString (name l));
            (js "color", VFunction (color l));
            (js "priority", VNumber (priority l));
            (js "scope", VString (LogScope_value (scope l))) ].

(** ** The state the methods run in *)

(** The two mutable fields of a [Logger]. *)
Record Logger := mkLogger {
  logLevel : LogLevel;
  timeFormat : jsstring
}.

(** The names of the four levels of the registry. *)
Definition levelNames : list jsstring :=
  [js "error"; js "warn"; js "info"; js "debug"].

Section WithCollaborators.

Context {C : Collaborators}.

(** The instance, the lines written so far to either stream (oldest
    first) and the clock [moment()] reads. *)
Record World := mkWorld {
  this : Logger;
  console : list (LogScope * jsstring);
  clock : Moment
}.

Definition M (A : Type) : Type := World -> A * World.

Definition ret {A} (a : A) : M A := fun w => (a, w).

Definition bind {A B} (m : M A) (k : A -> M B) : M B :=
  fun w => let '(a, w') := m w in k a w'.

Notation "x <- m ;; k" := (bind m (fun x => k))
  (at level 61, m at next level, right associativity).
Notation "m ;; k" := (bind m (fun _ => k))
  (at level 61, right associativity).

Definition getThis : M Logger := fun w => (this w, w).

Definition putThis (l : Logger) : M unit :=
  fun w => (tt, mkWorld l (console w) (clock w)).

(** [moment().format(pattern)] *)
Definition moment (pattern : jsstring) : M jsstring :=
  fun w => (moment_format (clock w) pattern, w).

Definition write (s : LogScope) (line : jsstring) : M unit :=
  fun w => (tt, mkWorld (this w) (console w ++ [(s, line)]) (clock w)).

Definition console_log : jsstring -> M unit := write STDOUT.
Definition console_error : jsstring -> M unit := write STDERR.

(** ** [class Logger] *)

Definition logLevels : list LogLevel :=
  [ mkLogLevel (js "error") chalk_red_bold 0 STDERR;
    mkLogLevel (js "warn") chalk_yellow_bold 1 STDERR;
    mkLogLevel (js "info") chalk_green_bold 2 STDOUT;
    mkLogLevel (js "debug") chalk_blue_bold 3 STDOUT ].

(** [this.logLevels[i]] for a literal index of the source. *)
Definition logLevels_at (i : nat) : LogLevel :=
  nth i logLevels (mkLogLevel [] (fun s => s) 0 STDOUT).

Definition defaultLogLevel : LogLevel := logLevels_at 2.

(** The four levels of the registry, to name them in statements. *)
Definition ERROR : LogLevel := logLevels_at 0.
Definition WARN : LogLevel := logLevels_at 1.
Definition INFO : LogLevel := logLevels_at 2.
Definition DEBUG : LogLevel := logLevels_at 3.

Definition setLogLevel (level : LogLevel) : M unit :=
  self <- getThis ;;
  putThis (mkLogger level (timeFormat self)).

Definition setTimeFormat (format : jsstring) : M unit :=
  self <- getThis ;;
  putThis (mkLogger (logLevel self) format).

Definition getLogLevelByName (name0 : jsstring) : option LogLevel :=
  index logLevels (findIndex (fun l => streq (name l) name0) logLevels).

Definition getLogLevelByPriority (priority0 : Number) : option LogLevel :=
  index logLevels
    (findIndex (fun l => numeq (Num (priority l)) priority0) logLevels).

Definition format (level : LogLevel) (message : jsstring) (notime : bool)
  : M jsstring :=
  self <- getThis ;;
  time <- moment (timeFormat self) ;;
  let line := color level (toUpperCase (name level)) ++ js " " ++ message in
  ret (if negb notime then js "[" ++ chalk_gray time ++ js "] " ++ line else line).

Definition formatJson (level : LogLevel) (message : jsstring) : M jsstring :=
  time <- moment (js "HH:mm:ss") ;;
  let line := stringifyObject [ (js "time", VString time);
                                (js "level", LogLevel_value level);
                                (js "message", VString message) ] in
  ret line.

(** [json] is an optional parameter: left out, it is falsy. *)
Definition log (level : LogLevel) (message : jsstring) (json : bool)
  : M (option jsstring) :=
  self <- getThis ;;
  if (priority (logLevel self) >=? priority level)%Z then
    line <- (if json then formatJson level message
             else format level message false) ;;
    (if LogScope_eqb (scope level) STDERR
     then console_error line else console_log line) ;;
    ret (Some line)
  else ret None.

(** The four wrappers are [async] without an [await]: the body runs to
    its end at the call, and the promise holds what [log] returned. *)
Definition error (message : jsstring) (json : bool) : M (option jsstring) :=
  log (logLevels_at 0) message json.

Definition warn (message : jsstring) (json : bool) : M (option jsstring) :=
  log (logLevels_at 1) message json.

Definition info (message : jsstring) (json : bool) : M (option jsstring) :=
  log (logLevels_at 2) message json.

Definition debug (message : jsstring) (json : bool) : M (option jsstring) :=
  log (logLevels_at 3) message json.

(** The level the constructor assigns to [this.logLevel], from
    [process.env.LOG_LEVEL] ([None] when the variable is not set; the
    empty string is falsy as well). *)
Definition resolveLogLevel (LOG_LEVEL : option jsstring) : LogLevel :=
  match LOG_LEVEL with
  | None | Some [] => defaultLogLevel
  | Some env =>
      if isNaN (parseInt env) then
        match getLogLevelByName env with
        | None => defaultLogLevel
        | Some levelFromName => levelFromName
        end
      else
        match getLogLevelByPriority (parseInt env) with
        | None => defaultLogLevel
        | Some levelFromNum => levelFromNum
        end
  end.

(** [new Logger()]: the field initialisers, the resolution of the
    level, then the announcement through [this.debug]. *)
Definition constructor (LOG_LEVEL : option jsstring)
    (out : list (LogScope * jsstring)) (now : Moment) : World :=
  let self := mkLogger (resolveLogLevel LOG_LEVEL) (js "HH:mm:ss") in
  snd (debug (js "Using log level: " ++ name (logLevel self)) false
         (mkWorld self out now)).

End WithCollaborators.

(** ** An instance of the collaborators, to run the code on

    Chalk without colour support returns its argument; the clock is a
    24-hour time of day, and of moment's patterns only the two-digit
    tokens [HH], [mm] and [ss] are rendered; upper-casing is that of ASCII
    letters. *)

Module Plain.

Definition two (n : N) : jsstring := [48 + n / 10 mod 10; 48 + n mod 10]%N.

Fixpoint render (t : N * N * N) (pattern : jsstring) : jsstring :=
  match pattern with
  | [] => []
  | c :: p =>
      match p with
      | d :: p' =>
          let '(h, m, s) := t in
          if ((c =? 72) && (d =? 72))%N then two h ++ render t p'
          else if ((c =? 109) && (d =? 109))%N then two m ++ render t p'
          else if ((c =? 115) && (d =? 115))%N then two s ++ render t p'
          else c :: render t p
      | [] => [c]
      end
  end.

Definition upper (s : jsstring) : jsstring :=
  map (fun c => if ((97 <=? c) && (c <=? 122))%N then (c - 32)%N else c) s.

Definition collaborators : Collaborators :=
  {| Moment := N * N * N;
     moment_format := render;
     toUpperCase := upper;
     chalk_red_bold := fun s => s;
     chalk_yellow_bold := fun s => s;
     chalk_green_bold := fun s => s;
     chalk_blue_bold := fun s => s;
     chalk_gray := fun s => s |}.

Definition noon : @Moment collaborators := (12, 0, 0)%N.

(** To write a text with double quotes: every apostrophe becomes one. *)
Definition dq (s : jsstring) : jsstring :=
  map (fun c => if (c =? 39)%N then 34%N else c) s.

(** A world of this instance: a logger at [level] with the default time
    format, an empty console, the clock at noon. *)
Definition world (level : LogLevel) : @World collaborators :=
  @mkWorld collaborators (mkLogger level (js "HH:mm:ss")) [] noon.

End Plain.

(** ** The text after a digit

    What may follow the digit [k] for [parseInt] to read [k] alone:
    nothing, or a code unit that is no decimal digit and, after a zero,
    neither [x] nor [X]. *)

Definition afterDigit (k : N) (t : jsstring) : Prop :=
  match t with
  | [] => True
  | c :: _ => digitValue 10 c = None /\ (k = 0%N -> c <> 120%N /\ c <> 88%N)
  end.

(** ** Time passing

    The methods do not move the clock; between two calls it moves on
    its own. *)

Section Environment.

Context {C : Collaborators}.

(** The world [w] once the clock reads [later]. *)
Definition atClock (later : Moment) (w : World) : World :=
  mkWorld (this w) (console w) later.

End Environment.

(** * Properties *)

(** ** Strings and arrays *)

Lemma streq_spec (a b : jsstring) : streq a b = true <-> a = b.
Proof.
  revert b; induction a as [|x a IH]; intros [|y b]; simpl; split;
    try congruence; try reflexivity.
  - intros H. apply andb_true_iff in H as [Hx Hab].
    apply N.eqb_eq in Hx. apply IH in Hab. congruence.
  - intros H. injection H as -> ->.
    rewrite N.eqb_refl. simpl. now apply IH.
Qed.

Lemma streq_neq (a b : jsstring) : a <> b -> streq a b = false.
Proof.
  intros H. destruct (streq a b) eqn:E; [|reflexivity].
  now apply streq_spec in E.
Qed.

Lemma app_one_neq {A} (l : list A) (x : A) : l ++ [x] <> l.
Proof.
  intros H. apply (f_equal (@List.length A)) in H.
  rewrite length_app in H. simpl in H. lia.
Qed.

(** ** JSON: the parser reads back what [stringify] writes *)

Section JSONFacts.

Local Open Scope N_scope.

Lemma hexValue_hexDigit d : d < 16 -> hexValue (hexDigit d) = Some d.
Proof.
  intros H. unfold hexValue, hexDigit, digitValue.
  destruct (d <? 10) eqn:E.
  - apply N.ltb_lt in E.
    replace (48 <=? 48 + d) with true by (symmetry; apply N.leb_le; lia).
    replace (48 + d <=? 57) with true by (symmetry; apply N.leb_le; lia).
    cbn [andb N.eqb]. f_equal. lia.
  - apply N.ltb_ge in E.
    replace (48 <=? 87 + d) with true by (symmetry; apply N.leb_le; lia).
    replace (87 + d <=? 57) with false by (symmetry; apply N.leb_gt; lia).
    replace (97 <=? 87 + d) with true by (symmetry; apply N.leb_le; lia).
    replace (87 + d <=? 102) with true by (symmetry; apply N.leb_le; lia).
    change (16 =? 16) with true. cbn [andb]. f_equal. lia.
Qed.

Lemma hex4_escape c : c < 65536 ->
  hex4 (hexDigit (c / 4096 mod 16)) (hexDigit (c / 256 mod 16)) (hexDigit (c / 16 mod 16)) (hexDigit (c mod 16)) = Some c.
Proof.
  intros H. unfold hex4.
  rewrite !hexValue_hexDigit by (apply N.mod_lt; discriminate).
  f_equal.
  assert (E2 : c / 256 = c / 16 / 16) by now rewrite N.Div0.div_div.
  assert (E3 : c / 4096 = c / 16 / 16 / 16) by now rewrite !N.Div0.div_div.
  rewrite E2, E3.
  assert (Hq : c / 16 / 16 / 16 < 16) by (rewrite !N.Div0.div_div by discriminate; now apply N.Div0.div_lt_upper_bound).
  rewrite (N.mod_small _ _ Hq).
  pose proof (N.div_mod c 16) as H0.
  pose proof (N.div_mod (c / 16) 16) as H1.
  pose proof (N.div_mod (c / 16 / 16) 16) as H2.
  lia.
Qed.

Lemma parseChars_UnicodeEscape c tail r rest :
  c < 65536 -> parseChars tail = Some (r, rest) ->
  parseChars (UnicodeEscape c ++ tail) = Some (c :: r, rest).
Proof.
  intros Hc Ht. unfold UnicodeEscape. cbn [app parseChars].
  change (92 =? 34) with false. change (92 =? 92) with true.
  change (117 =? 117) with true. cbv iota.
  now rewrite hex4_escape, Ht.
Qed.

Lemma parseChars_plain c tail r rest :
  c <> 34 -> c <> 92 -> 32 <= c -> parseChars tail = Some (r, rest) ->
  parseChars (c :: tail) = Some (c :: r, rest).
Proof.
  intros H1 H2 H3 Ht. cbn [parseChars].
  apply N.eqb_neq in H1, H2. apply N.ltb_ge in H3.
  now rewrite H1, H2, H3, Ht.
Qed.

Lemma parseChars_quoteUnit c tail r rest :
  parseChars tail = Some (r, rest) ->
  parseChars (quoteUnit c ++ tail) = Some (c :: r, rest).
Proof.
  intros Ht. unfold quoteUnit.
  repeat match goal with
  | |- context [if (c =? ?k) then _ else _] =>
      destruct (N.eqb_spec c k) as [->|?];
      [cbn [app parseChars]; vm_compute (_ =? _); cbv iota;
       vm_compute (unescape _); now rewrite Ht|]
  end.
  destruct (_ || _) eqn:E.
  - apply parseChars_UnicodeEscape; [|exact Ht].
    unfold isLeadingSurrogate, isTrailingSurrogate in E.
    rewrite !orb_true_iff, !andb_true_iff, N.ltb_lt, !N.leb_le in E. lia.
  - rewrite !orb_false_iff in E. destruct E as [[E _] _].
    apply N.ltb_ge in E. now apply parseChars_plain.
Qed.

Lemma quoteChars_cons2 c d t :
  quoteChars (c :: d :: t) =
    if isLeadingSurrogate c && isTrailingSurrogate d
    then c :: d :: quoteChars t
    else quoteUnit c ++ quoteChars (d :: t).
Proof. reflexivity. Qed.

Lemma parseChars_quoteChars_le n : forall s rest,
  (List.length s <= n)%nat ->
  parseChars (quoteChars s ++ 34 :: rest) = Some (s, rest).
Proof.
  induction n as [|n IH]; intros s rest Hlen.
  - destruct s; [reflexivity | simpl in Hlen; lia].
  - destruct s as [|c [|d t]]; [reflexivity | |].
    + cbn [quoteChars]. now apply parseChars_quoteUnit.
    + rewrite quoteChars_cons2. simpl in Hlen.
      destruct (isLeadingSurrogate c && isTrailingSurrogate d) eqn:E.
      * apply andb_true_iff in E as [Ec Ed].
        unfold isLeadingSurrogate in Ec. unfold isTrailingSurrogate in Ed.
        rewrite andb_true_iff, !N.leb_le in Ec, Ed.
        cbn [app]. apply parseChars_plain; [lia .. |].
        apply parseChars_plain; [lia .. |].
        apply IH. lia.
      * rewrite <- app_assoc. apply parseChars_quoteUnit.
        apply IH. simpl. lia.
Qed.

Lemma parseChars_quoteChars s rest :
  parseChars (quoteChars s ++ 34 :: rest) = Some (s, rest).
Proof. now apply (parseChars_quoteChars_le (List.length s)). Qed.

Local Close Scope N_scope.

Lemma parseDigits_uintUnits d rest :
  endsNumber rest -> parseDigits (uintUnits d ++ rest) = (d, rest).
Proof.
  intros Hr. induction d; cbn [uintUnits app parseDigits];
    try (vm_compute (unitDigit _); now rewrite IHd).
  destruct rest as [|c t]; [reflexivity|].
  simpl in Hr. cbn [parseDigits]. now rewrite Hr.
Qed.

Lemma nzhead_wellFormed d :
  match Decimal.nzhead d with
  | Decimal.Nil => True
  | d' => wellFormedInt d' = true
  end.
Proof. induction d; simpl; auto. Qed.

Lemma unorm_wellFormed d : wellFormedInt (Decimal.unorm d) = true.
Proof.
  unfold Decimal.unorm. pose proof (nzhead_wellFormed d) as H.
  destruct (Decimal.nzhead d); auto.
Qed.

Lemma to_uint_wellFormed p : wellFormedInt (Pos.to_uint p) = true.
Proof.
  change (Pos.to_uint p) with (N.to_uint (Npos p)).
  rewrite <- (DecimalN.Unsigned.of_to (Npos p)) at 1.
  rewrite DecimalN.Unsigned.to_of. apply unorm_wellFormed.
Qed.

Lemma uintUnits_head d rest :
  wellFormedInt d = true ->
  exists c t, uintUnits d ++ rest = c :: t
              /\ (c =? 45)%N = false /\ (c =? 34)%N = false /\ (c =? 123)%N = false
              /\ (32 <= c)%N.
Proof.
  destruct d; [discriminate| ..]; intros _; cbn [uintUnits app];
    do 2 eexists; (split; [reflexivity|]); repeat split; try reflexivity; lia.
Qed.

Lemma parseNumber_NumberToString z rest :
  endsNumber rest -> parseNumber (NumberToString z ++ rest) = Some (z, rest).
Proof.
  intros Hr. unfold NumberToString.
  rewrite <- (DecimalZ.of_to z) at 2.
  assert (Hwf : match Z.to_int z with
                | Decimal.Pos d | Decimal.Neg d => wellFormedInt d = true end).
  { destruct z; simpl; auto using to_uint_wellFormed. }
  destruct (Z.to_int z) as [d|d].
  - destruct (uintUnits_head d rest Hwf) as (c & t & E & H45 & _).
    unfold parseNumber. rewrite E, H45, <- E.
    now rewrite parseDigits_uintUnits, Hwf.
  - unfold parseNumber. cbn [app]. change (45 =? 45)%N with true. cbv iota.
    now rewrite parseDigits_uintUnits, Hwf.
Qed.

Lemma value_ind' (P : value -> Prop) :
  (forall s, P (VString s)) -> (forall z, P (VNumber z)) ->
  (forall f, P (VFunction f)) ->
  (forall ps, Forall (fun kp => P (snd kp)) ps -> P (VObject ps)) ->
  forall v, P v.
Proof.
  intros Hs Hn Hf Ho. fix IH 1.
  intros [s|z|f|ps]; [apply Hs | apply Hn | apply Hf |].
  apply Ho. induction ps as [|[k p] ps IHps]; constructor;
    [apply IH | exact IHps].
Qed.

Lemma SerializeJSONProperty_object ps :
  SerializeJSONProperty (VObject ps) =
    Some (js "{" ++ join (js ",") (serializeMembers ps) ++ js "}").
Proof.
  reflexivity.
Qed.

Lemma toJson_object ps : toJson (VObject ps) = Some (JObject (jsonMembers ps)).
Proof.
  reflexivity.
Qed.

Lemma need_object ms : need (JObject ms) = S (needMembers ms).
Proof.
  reflexivity.
Qed.

Lemma join_cons sep x l :
  join sep (x :: l) = match l with [] => x | _ => x ++ sep ++ join sep l end.
Proof. destruct l; reflexivity. Qed.

Lemma hexDigit_printable d : (32 <= hexDigit d)%N.
Proof. unfold hexDigit. destruct (d <? 10)%N; lia. Qed.

Lemma quoteUnit_printable c : Forall (fun u => 32 <= u)%N (quoteUnit c).
Proof.
  unfold quoteUnit.
  repeat match goal with
  | |- context [if (c =? ?k)%N then _ else _] =>
      destruct (N.eqb_spec c k) as [->|?];
      [repeat apply Forall_cons; try apply Forall_nil; lia|]
  end.
  destruct (_ || _) eqn:E.
  - unfold UnicodeEscape.
    repeat apply Forall_cons; try apply Forall_nil;
      try apply hexDigit_printable; lia.
  - rewrite !orb_false_iff in E. destruct E as [[E _] _].
    apply N.ltb_ge in E. apply Forall_cons; [exact E | apply Forall_nil].
Qed.

Lemma quoteChars_printable_le n : forall s,
  List.length s <= n -> Forall (fun u => 32 <= u)%N (quoteChars s).
Proof.
  induction n as [|n IH]; intros s Hlen.
  - destruct s; [constructor | simpl in Hlen; lia].
  - destruct s as [|c [|d t]]; [constructor | apply quoteUnit_printable |].
    rewrite quoteChars_cons2. simpl in Hlen.
    destruct (isLeadingSurrogate c && isTrailingSurrogate d) eqn:E.
    + apply andb_true_iff in E as [Ec Ed].
      unfold isLeadingSurrogate in Ec. unfold isTrailingSurrogate in Ed.
      rewrite andb_true_iff, !N.leb_le in Ec, Ed.
      constructor; [lia|]. constructor; [lia|]. apply IH. lia.
    + apply Forall_app. split; [apply quoteUnit_printable|].
      apply IH. simpl. lia.
Qed.

Lemma QuoteJSONString_printable s :
  Forall (fun u => 32 <= u)%N (QuoteJSONString s).
Proof.
  unfold QuoteJSONString. constructor; [lia|].
  apply Forall_app. split.
  - now apply (quoteChars_printable_le (List.length s)).
  - apply Forall_cons; [lia | apply Forall_nil].
Qed.

Lemma uintUnits_printable d : Forall (fun u => 32 <= u)%N (uintUnits d).
Proof. induction d; cbn [uintUnits]; constructor; auto; lia. Qed.

Lemma NumberToString_printable z :
  Forall (fun u => 32 <= u)%N (NumberToString z).
Proof.
  unfold NumberToString. destruct (Z.to_int z).
  - apply uintUnits_printable.
  - constructor; [lia | apply uintUnits_printable].
Qed.

Lemma faithful_string s : faithful (VString s).
Proof.
  unfold faithful. cbn [toJson SerializeJSONProperty].
  eexists. split; [reflexivity|]. split; [|split].
  - apply QuoteJSONString_printable.
  - unfold QuoteJSONString. simpl. lia.
  - intros [|fuel] rest Hf _; [simpl in Hf; lia|].
    unfold QuoteJSONString. cbn [app parseValue].
    change (34 =? 34)%N with true. cbv iota.
    rewrite <- app_assoc. cbn [app].
    now rewrite parseChars_quoteChars.
Qed.

Lemma faithful_number z : faithful (VNumber z).
Proof.
  unfold faithful. cbn [toJson SerializeJSONProperty].
  eexists. split; [reflexivity|].
  assert (Hwf : match Z.to_int z with
                | Decimal.Pos d | Decimal.Neg d => wellFormedInt d = true end).
  { destruct z; simpl; auto using to_uint_wellFormed. }
  split; [|split].
  - apply NumberToString_printable.
  - unfold NumberToString. destruct (Z.to_int z) as [d|d].
    + destruct d; [discriminate Hwf | ..]; simpl; lia.
    + simpl. lia.
  - intros [|fuel] rest Hf Hr; [simpl in Hf; lia|].
    pose proof (parseNumber_NumberToString z rest Hr) as Hp.
    assert (Hh : exists c t, NumberToString z ++ rest = c :: t
                 /\ (c =? 34)%N = false /\ (c =? 123)%N = false).
    { unfold NumberToString. destruct (Z.to_int z) as [d|d].
      - destruct (uintUnits_head d rest Hwf) as (c & t & E & _ & H1 & H2 & _).
        now exists c, t.
      - do 2 eexists. split; [reflexivity|]. split; reflexivity. }
    destruct Hh as (c & t & E & H1 & H2).
    cbn [parseValue]. rewrite E, H1, H2, <- E. now rewrite Hp.
Qed.

Lemma parseMembers_member fuel k s j tail :
  readsBack s j -> need j <= fuel -> endsNumber tail ->
  parseMembers (S fuel) (QuoteJSONString k ++ 58%N :: s ++ tail) =
    match tail with
    | c2 :: r2 =>
        if (c2 =? 44)%N then
          match parseMembers fuel r2 with
          | Some (ms, rest) => Some ((k, j) :: ms, rest)
          | None => None
          end
        else if (c2 =? 125)%N then Some ([(k, j)], r2)
        else None
    | [] => None
    end.
Proof.
  intros (_ & _ & Hp) Hf Ht.
  unfold QuoteJSONString. cbn [app parseMembers].
  change (34 =? 34)%N with true. cbv iota.
  rewrite <- app_assoc. cbn [app]. rewrite parseChars_quoteChars.
  change (58 =? 58)%N with true. cbv iota.
  rewrite (Hp fuel tail Hf Ht). now destruct tail.
Qed.

Lemma member_printable k s :
  Forall (fun c => 32 <= c)%N s ->
  Forall (fun c => 32 <= c)%N (QuoteJSONString k ++ 58%N :: s).
Proof.
  intros Hs. apply Forall_app; split; [apply QuoteJSONString_printable|].
  apply Forall_cons; [lia | exact Hs].
Qed.

Lemma members_faithful ps :
  Forall (fun kp => faithful (snd kp)) ps ->
  let text := join [44%N] (serializeMembers ps) in
  (jsonMembers ps = [] -> serializeMembers ps = [])
  /\ (jsonMembers ps <> [] -> exists t, text = 34%N :: t)
  /\ Forall (fun c => 32 <= c)%N text
  /\ needMembers (jsonMembers ps) <= List.length text
  /\ forall fuel rest,
       needMembers (jsonMembers ps) <= fuel -> jsonMembers ps <> [] ->
       parseMembers fuel (text ++ 125%N :: rest) = Some (jsonMembers ps, rest).
Proof.
  induction 1 as [|[k p] ps Hp _ IH]; cbn zeta.
  - cbn. split; [reflexivity|]. split; [congruence|].
    split; [apply Forall_nil|]. split; [lia|]. intros; congruence.
  - cbn zeta in IH. destruct IH as (Hnil & Hhead & Hprint & Hlen & Hparse).
    unfold faithful in Hp. cbn [snd] in Hp.
    cbn [jsonMembers serializeMembers].
    destruct (toJson p) as [j|]; [|rewrite Hp; now repeat split].
    destruct Hp as (s & -> & Hs). cbn [keep].
    rewrite join_cons. change (js ":") with [58%N]. cbn [app].
    pose proof Hs as (Hs1 & Hs2 & Hs3).
    destruct (serializeMembers ps) as [|m ms] eqn:Ems.
    + assert (Ejs : jsonMembers ps = []).
      { destruct (jsonMembers ps) eqn:E; [reflexivity|].
        destruct Hhead as [t Ht]; [discriminate | discriminate Ht]. }
      rewrite Ejs.
      split; [discriminate|]. split; [intros _; eexists; reflexivity|].
      split; [now apply member_printable|]. split.
      * cbn [needMembers]. rewrite length_app. simpl. lia.
      * intros [|fuel] rest Hf _; [simpl in Hf; lia|].
        cbn [needMembers] in Hf.
        rewrite <- app_assoc. cbn [app].
        rewrite (@parseMembers_member fuel k s j (125%N :: rest) Hs);
          [reflexivity | lia | reflexivity].
    + assert (Ejs : jsonMembers ps <> []).
      { intros E. now apply Hnil in E. }
      split; [discriminate|]. split; [intros _; eexists; reflexivity|].
      split; [|split].
      * rewrite <- app_assoc. cbn [app]. rewrite app_comm_cons, app_assoc.
        apply Forall_app; split; [now apply member_printable|].
        apply Forall_cons; [lia | exact Hprint].
      * cbn [needMembers]. rewrite !length_app.
        cbn [List.length]. lia.
      * intros [|fuel] rest Hf _; [simpl in Hf; lia|].
        cbn [needMembers] in Hf.
        rewrite <- !app_assoc. cbn [app]. rewrite <- ?app_assoc. cbn [app].
        rewrite (@parseMembers_member fuel k s j _ Hs); [| lia | reflexivity].
        change (44 =? 44)%N with true. cbv iota.
        rewrite Hparse; [reflexivity | lia | exact Ejs].
Qed.

Lemma parseValue_object fuel body :
  (exists t, body = 34%N :: t) ->
  parseValue (S fuel) (123%N :: body) =
    match parseMembers fuel body with
    | Some (ms, rest) => Some (JObject ms, rest)
    | None => None
    end.
Proof. intros [t ->]. reflexivity. Qed.

Lemma faithful_all v : faithful v.
Proof.
  induction v as [s|z|f|ps IH] using value_ind'.
  - apply faithful_string.
  - apply faithful_number.
  - reflexivity.
  - apply members_faithful in IH. cbn zeta in IH.
    change [44%N] with (js ",") in IH.
    destruct IH as (Hnil & Hhead & Hprint & Hlen & Hparse).
    unfold faithful. rewrite toJson_object, SerializeJSONProperty_object.
    eexists. split; [reflexivity|].
    change (js "{") with [123%N]. change (js "}") with [125%N].
    split; [|split].
    + apply Forall_cons; [lia|]. apply Forall_app; split; [exact Hprint|].
      apply Forall_cons; [lia | apply Forall_nil].
    + rewrite need_object. simpl List.length. rewrite length_app. lia.
    + intros [|fuel] rest Hf _; [simpl in Hf; lia|].
      rewrite need_object in Hf.
      rewrite <- app_assoc. cbn [app]. rewrite <- app_assoc. cbn [app].
      destruct (jsonMembers ps) as [|m ms] eqn:E.
      * rewrite (Hnil eq_refl). reflexivity.
      * rewrite parseValue_object.
        -- rewrite Hparse; [reflexivity | lia | discriminate].
        -- destruct Hhead as [t Ht]; [discriminate|].
           rewrite Ht. eexists. reflexivity.
Qed.

Theorem parse_stringify v j :
  toJson v = Some j ->
  exists s, stringify v = Some s /\ parse s = Some j
            /\ Forall (fun c => 32 <= c)%N s.
Proof.
  intros Hj. pose proof (faithful_all v) as H. unfold faithful in H.
  rewrite Hj in H. destruct H as (s & Hs & Hprint & Hlen & Hparse).
  exists s. split; [exact Hs|]. split; [|exact Hprint].
  unfold parse. rewrite <- (List.app_nil_r s) at 2.
  rewrite Hparse; [reflexivity | lia | exact I].
Qed.

End JSONFacts.

(** ** The state monad: what each operation does to the world *)

Section Logger.

Context {C : Collaborators}.

Implicit Types (w : World) (level : LogLevel) (message : jsstring).

Lemma format_run level message notime w :
  format level message notime w =
    ((if notime then [] else js "[" ++ chalk_gray (moment_format (clock w) (timeFormat (this w))) ++ js "] ")
       ++ color level (toUpperCase (name level)) ++ js " " ++ message, w).
Proof.
  unfold format, bind, getThis, moment, ret.
  destruct notime; simpl; [reflexivity|].
  now rewrite <- app_assoc.
Qed.

Lemma formatJson_run level message w :
  formatJson level message w =
    (stringifyObject [ (js "time", VString (moment_format (clock w) (js "HH:mm:ss")));
                       (js "level", LogLevel_value level);
                       (js "message", VString message) ], w).
Proof. reflexivity. Qed.

Lemma log_run level message json w :
  log level message json w =
    if (priority (logLevel (this w)) >=? priority level)%Z then
      let line := fst ((if json then formatJson level message
                        else format level message false) w) in
      (Some line, mkWorld (this w) (console w ++ [(scope level, line)]) (clock w))
    else (None, w).
Proof.
  unfold log, bind, getThis.
  destruct (priority (logLevel (this w)) >=? priority level)%Z; [|reflexivity].
  destruct json; destruct (scope level); reflexivity.
Qed.

Lemma logLevels_eq : logLevels = [ERROR; WARN; INFO; DEBUG].
Proof. reflexivity. Qed.

Lemma in_logLevels l :
  In l logLevels <-> l = ERROR \/ l = WARN \/ l = INFO \/ l = DEBUG.
Proof.
  rewrite logLevels_eq. simpl. intuition congruence.
Qed.

Lemma geb_ge (a b : Z) : (a >=? b)%Z = true <-> (a >= b)%Z.
Proof. rewrite Z.geb_le. lia. Qed.

(** ** Filtering *)

Lemma log_line level message json w :
  log level message json w =
    if (priority (logLevel (this w)) >=? priority level)%Z then
      let line :=
        if json
        then stringifyObject
               [ (js "time", VString (moment_format (clock w) (js "HH:mm:ss")));
                 (js "level", LogLevel_value level);
                 (js "message", VString message) ]
        else js "[" ++ chalk_gray (moment_format (clock w) (timeFormat (this w)))
               ++ js "] " ++ color level (toUpperCase (name level))
               ++ js " " ++ message in
      (Some line, mkWorld (this w) (console w ++ [(scope level, line)]) (clock w))
    else (None, w).
Proof.
  unfold log, bind, getThis.
  destruct (priority (logLevel (this w)) >=? priority level)%Z; [|reflexivity].
  destruct json; destruct (scope level); reflexivity.
Qed.

(** C1. A call of [log] formats and writes the message exactly when
    [this.logLevel.priority >= level.priority].  In that case the line
    is the JSON record of the time, the level and the message when
    [json] is set, and otherwise the time between brackets, the styled
    upper-case name of the level and the message; that line is appended
    to the console on the stream of the level, and returned.  In the
    other case the world is left as it was and nothing is returned.
    With the active level [warn], [error] and [warn] are emitted in
    this way, on the standard error, and [info] and [debug] are
    dropped. *)
Theorem log_emits_iff w level message (json : bool) :
  let line := fun l : LogLevel =>
    if json
    then stringifyObject
           [ (js "time", VString (moment_format (clock w) (js "HH:mm:ss")));
             (js "level", LogLevel_value l);
             (js "message", VString message) ]
    else js "[" ++ chalk_gray (moment_format (clock w) (timeFormat (this w)))
           ++ js "] " ++ color l (toUpperCase (name l)) ++ js " " ++ message in
  let written := fun l : LogLevel =>
    (Some (line l),
     mkWorld (this w) (console w ++ [(scope l, line l)]) (clock w)) in
  (log level message json w = written level
     <-> (priority (logLevel (this w)) >= priority level)%Z)
  /\ (log level message json w = (None, w)
      <-> ~ (priority (logLevel (this w)) >= priority level)%Z)
  /\ (logLevel (this w) = WARN ->
      error message json w = written ERROR /\ scope ERROR = STDERR
      /\ warn message json w = written WARN /\ scope WARN = STDERR
      /\ info message json w = (None, w)
      /\ debug message json w = (None, w)).
Proof.
  cbv zeta. rewrite <- geb_ge, log_line.
  split; [|split].
  - destruct (priority (logLevel (this w)) >=? priority level)%Z;
      split; try reflexivity; discriminate.
  - destruct (priority (logLevel (this w)) >=? priority level)%Z;
      split; try reflexivity; try discriminate; congruence.
  - intros Hw. unfold error, warn, info, debug.
    rewrite !log_line, Hw. repeat split.
Qed.

(** C2. When the level is filtered out, [log] writes nothing, leaves
    the world as it was and returns [undefined], which is not the empty
    string.  Otherwise the line is that of [formatJson] when [json] is
    set and that of [format] when it is not, it is written to the
    stream of [level.scope], and it is the result. *)
Theorem log_result w level message json :
  ((priority (logLevel (this w)) >=? priority level)%Z = false ->
     log level message json w = (None, w))
  /\ ((priority (logLevel (this w)) >=? priority level)%Z = true ->
       let line := fst ((if json then formatJson level message
                         else format level message false) w) in
       log level message json w =
         (Some line,
          mkWorld (this w) (console w ++ [(scope level, line)]) (clock w))
       /\ snd (write (scope level) line w) = snd (log level message json w))
  /\ (None : option jsstring) <> Some [].
Proof.
  rewrite log_run.
  split; [|split].
  - now intros ->.
  - intros ->. split; reflexivity.
  - discriminate.
Qed.

(** ** The two formatters *)

(** C9. The line of [format] is the upper-cased name of the level,
    passed through the level's style, a space and the message; with
    [notime] that is the whole line, and without it the line starts
    with the time, rendered by moment with [this.timeFormat] and
    styled gray, between brackets and followed by a space.  The world
    is left as it was. *)
Theorem format_output w level message notime :
  let body := color level (toUpperCase (name level)) ++ js " " ++ message in
  let time := moment_format (clock w) (timeFormat (this w)) in
  format level message notime w =
    (if notime then body
     else js "[" ++ chalk_gray time ++ js "] " ++ body, w).
Proof. destruct notime; reflexivity. Qed.

(** C7. For a level whose priority is a safe integer, the line of
    [formatJson] is JSON text: parsed, it is an object
    with the three keys [time], [level] and [message], in that order.
    [time] is the clock rendered with the pattern ["HH:mm:ss"], whatever
    [this.timeFormat] is; [level] is an object with the keys [name],
    [priority] and [scope], the chalk style being a function, which
    [JSON.stringify] leaves out; [message] is the message, code unit for
    code unit.  The line holds no line feed and no carriage return. *)
Theorem formatJson_record w level message :
  (Z.abs (priority level) < 2 ^ 53)%Z ->
  let line := fst (formatJson level message w) in
  parse line =
    Some (JObject
            [ (js "time", JString (moment_format (clock w) (js "HH:mm:ss")));
              (js "level",
               JObject [ (js "name", JString (name level));
                         (js "priority", JNumber (priority level));
                         (js "scope", JString (LogScope_value (scope level))) ]);
              (js "message", JString message) ])
  /\ ~ In 10%N line /\ ~ In 13%N line.
Proof.
  intros _.
  rewrite formatJson_run. cbn [fst]. unfold stringifyObject.
  match goal with |- context [stringify ?v] =>
    destruct (parse_stringify v _ eq_refl) as (s & -> & Hparse & Hprint)
  end.
  split; [exact Hparse|].
  rewrite Forall_forall in Hprint.
  split; intros Hin; apply Hprint in Hin; lia.
Qed.

(** C8. [formatJson] does not read [this.timeFormat]: two worlds with
    the same clock give the same line, whatever their loggers are, and
    so [setTimeFormat] does not change it.  The line of [format] does
    read it: for two worlds that differ in the time format alone, the
    lines are equal exactly when the two styled times are. *)
Theorem timeFormat_influence w1 w2 level message pattern :
  (clock w1 = clock w2 ->
     fst (formatJson level message w1) = fst (formatJson level message w2))
  /\ fst (formatJson level message (snd (setTimeFormat pattern w1)))
     = fst (formatJson level message w1)
  /\ (logLevel (this w1) = logLevel (this w2) -> clock w1 = clock w2 ->
      (fst (format level message false w1) = fst (format level message false w2)
       <-> chalk_gray (moment_format (clock w1) (timeFormat (this w1)))
           = chalk_gray (moment_format (clock w1) (timeFormat (this w2))))).
Proof.
  split; [|split].
  - intros H. rewrite !formatJson_run. simpl. now rewrite H.
  - reflexivity.
  - intros _ Hc. rewrite !format_run, <- Hc. simpl.
    split.
    + intros H. injection H as H.
      now do 2 apply app_inv_tail in H.
    + now intros ->.
Qed.

(** ** Frame *)

(** C10. [setLogLevel] replaces the level and keeps the time format,
    [setTimeFormat] replaces the time format and keeps the level, and
    neither touches the console; [log], the four wrappers and the two
    formatters leave the logger as it was.  The two lookups have no
    assignment in their bodies and are functions of their argument:
    run as computations they leave the whole world as it was. *)
Theorem logger_frame w level message json notime pattern n p :
  (this (snd (setLogLevel level w)) = mkLogger level (timeFormat (this w))
   /\ console (snd (setLogLevel level w)) = console w)
  /\ (this (snd (setTimeFormat pattern w)) = mkLogger (logLevel (this w)) pattern
      /\ console (snd (setTimeFormat pattern w)) = console w)
  /\ this (snd (log level message json w)) = this w
  /\ this (snd (error message json w)) = this w
  /\ this (snd (warn message json w)) = this w
  /\ this (snd (info message json w)) = this w
  /\ this (snd (debug message json w)) = this w
  /\ snd (format level message notime w) = w
  /\ snd (formatJson level message w) = w
  /\ snd (ret (getLogLevelByName n) w) = w
  /\ snd (ret (getLogLevelByPriority p) w) = w.
Proof.
  assert (Hlog : forall l, this (snd (log l message json w)) = this w).
  { intros l. rewrite log_run.
    now destruct (priority (logLevel (this w)) >=? priority l)%Z. }
  unfold error, warn, info, debug. rewrite !Hlog, format_run.
  repeat split.
Qed.

End Logger.

(** ** The registry and the resolution of the level *)

Lemma index_In {A} (l : list A) (i : Z) (x : A) : index l i = Some x -> In x l.
Proof.
  unfold index. destruct (i <? 0)%Z; [discriminate|].
  apply nth_error_In.
Qed.

Lemma numeq_spec (a b : Number) : numeq a b = true -> a = b.
Proof.
  destruct a, b; simpl; try discriminate.
  intros H. apply Z.eqb_eq in H. now subst.
Qed.

Lemma numeq_neq (a b : Number) : a <> b -> numeq a b = false.
Proof.
  intros H. destruct (numeq a b) eqn:E; [|reflexivity].
  now apply numeq_spec in E.
Qed.

Section Registry.

Context {C : Collaborators}.

Lemma getLogLevelByName_registry l :
  In l logLevels -> getLogLevelByName (name l) = Some l.
Proof.
  rewrite in_logLevels. intros [-> | [-> | [-> | ->]]]; reflexivity.
Qed.

Lemma getLogLevelByPriority_registry l :
  In l logLevels -> getLogLevelByPriority (Num (priority l)) = Some l.
Proof.
  rewrite in_logLevels. intros [-> | [-> | [-> | ->]]]; reflexivity.
Qed.

Lemma getLogLevelByName_none n :
  ~ In n levelNames -> getLogLevelByName n = None.
Proof.
  intros Hn. unfold getLogLevelByName, logLevels. cbn [findIndex name].
  rewrite !streq_neq; [reflexivity | | | |];
    intros E; apply Hn; rewrite <- E; simpl; auto.
Qed.

Lemma getLogLevelByPriority_none p :
  ~ In p [Num 0; Num 1; Num 2; Num 3] -> getLogLevelByPriority p = None.
Proof.
  intros Hp. unfold getLogLevelByPriority, logLevels. cbn [findIndex priority].
  rewrite !numeq_neq; [reflexivity | | | |];
    intros E; apply Hp; rewrite <- E; simpl; auto.
Qed.

Lemma resolveLogLevel_registry e : In (resolveLogLevel e) logLevels.
Proof.
  assert (Hd : In defaultLogLevel logLevels) by (simpl; auto).
  unfold resolveLogLevel.
  destruct e as [[|c t]|]; try exact Hd.
  destruct (isNaN _).
  - destruct (getLogLevelByName _) eqn:E; [|exact Hd].
    exact (index_In _ _ _ E).
  - destruct (getLogLevelByPriority _) eqn:E; [|exact Hd].
    exact (index_In _ _ _ E).
Qed.

Lemma constructor_this e out now :
  this (constructor e out now) = mkLogger (resolveLogLevel e) (js "HH:mm:ss").
Proof.
  unfold constructor, debug. rewrite log_run. cbn [this logLevel].
  now destruct (_ >=? _)%Z.
Qed.

(** C5. Each level of the registry is found under its name and under
    its priority; a name that is none of the four and a number that is
    none of 0, 1, 2, 3 give [undefined].  Both lookups are total: an
    index of -1 reads [undefined] from the array. *)
Theorem lookup_registry :
  (forall l, In l logLevels ->
     getLogLevelByName (name l) = Some l
     /\ getLogLevelByPriority (Num (priority l)) = Some l)
  /\ (forall n, ~ In n [js "error"; js "warn"; js "info"; js "debug"] ->
      getLogLevelByName n = None)
  /\ (forall p, ~ In p [Num 0; Num 1; Num 2; Num 3] ->
      getLogLevelByPriority p = None)
  /\ getLogLevelByName (js "nonexistent") = None
  /\ getLogLevelByPriority (Num 99) = None.
Proof.
  split; [|split; [|split; [|split]]].
  - intros l Hl. split.
    + now apply getLogLevelByName_registry.
    + now apply getLogLevelByPriority_registry.
  - exact getLogLevelByName_none.
  - exact getLogLevelByPriority_none.
  - reflexivity.
  - reflexivity.
Qed.

(** C3. The level a new logger has: [info] when [LOG_LEVEL] is not
    set, [warn] for ["1"], [info] for ["99"], [debug] for ["debug"],
    [info] for ["bogus"]; and whenever [parseInt] reads a number from
    the string, the level is decided by the lookup of that number
    alone, the name never being looked up. *)
Theorem constructor_resolution out now :
  logLevel (this (constructor None out now)) = INFO
  /\ logLevel (this (constructor (Some (js "1")) out now)) = WARN
  /\ logLevel (this (constructor (Some (js "99")) out now)) = INFO
  /\ logLevel (this (constructor (Some (js "debug")) out now)) = DEBUG
  /\ logLevel (this (constructor (Some (js "bogus")) out now)) = INFO
  /\ (forall env n, parseInt env = Num n ->
      logLevel (this (constructor (Some env) out now)) =
        match getLogLevelByPriority (Num n) with
        | Some levelFromNum => levelFromNum
        | None => defaultLogLevel
        end).
Proof.
  rewrite !constructor_this. cbn [logLevel].
  repeat split.
  intros env n H. rewrite constructor_this. cbn [logLevel].
  unfold resolveLogLevel. destruct env as [|c t]; [discriminate H|].
  now rewrite H.
Qed.

(** C4. The code at [LOG_LEVEL=1abc], which is none of ["0"] to ["3"]
    and no level name: [parseInt] reads the number 1 at its head, the
    branch "if set as number" is taken and the logger is at [warn], not
    at [info].  The branch of the names compares the whole string:
    ["warn1"] gives [info]. *)
Theorem constructor_reads_prefix out now :
  ~ In (js "1abc") [js "0"; js "1"; js "2"; js "3"]
  /\ ~ In (js "1abc") [js "error"; js "warn"; js "info"; js "debug"]
  /\ parseInt (js "1abc") = Num 1
  /\ logLevel (this (constructor (Some (js "1abc")) out now)) = WARN
  /\ WARN <> INFO
  /\ logLevel (this (constructor (Some (js "warn1")) out now)) = INFO.
Proof.
  rewrite !constructor_this. cbn [logLevel].
  split; [|split; [|split; [|split; [|split]]]].
  - simpl. intros [F | [F | [F | [F | []]]]]; discriminate F.
  - simpl. intros [F | [F | [F | [F | []]]]]; discriminate F.
  - reflexivity.
  - reflexivity.
  - intros E. apply (f_equal priority) in E. discriminate E.
  - reflexivity.
Qed.

(** C6. The constructor ends with one call of [debug], in the world
    that holds the level just resolved.  Its line reaches the console,
    on the standard output, exactly when that level is [debug]; for
    the three other levels the console is left as it was. *)
Theorem constructor_announcement LOG_LEVEL out now :
  let resolved := resolveLogLevel LOG_LEVEL in
  let self := mkLogger resolved (js "HH:mm:ss") in
  let line := js "[" ++ chalk_gray (moment_format now (js "HH:mm:ss")) ++ js "] "
                ++ chalk_blue_bold (toUpperCase (js "debug")) ++ js " "
                ++ js "Using log level: " ++ name resolved in
  let w := constructor LOG_LEVEL out now in
  w = snd (debug (js "Using log level: " ++ name resolved) false
             (mkWorld self out now))
  /\ this w = self
  /\ (console w = out ++ [(STDOUT, line)] <-> resolved = DEBUG)
  /\ (console w = out <-> resolved <> DEBUG).
Proof.
  intros resolved self line w.
  split; [reflexivity|]. split; [apply constructor_this|].
  assert (Hin := resolveLogLevel_registry LOG_LEVEL).
  fold resolved in Hin. apply in_logLevels in Hin.
  assert (Hd : resolved = DEBUG -> console w = out ++ [(STDOUT, line)]).
  { intros H. subst w line. unfold constructor, debug.
    fold resolved. rewrite log_run, H. reflexivity. }
  assert (Hn : resolved <> DEBUG -> console w = out).
  { intros H. subst w. unfold constructor, debug. fold resolved.
    rewrite log_run.
    destruct Hin as [E | [E | [E | E]]]; [| | |contradiction];
      rewrite E; reflexivity. }
  assert (Hdec : resolved = DEBUG \/ resolved <> DEBUG).
  { destruct Hin as [E | [E | [E | E]]]; [right | right | right | now left];
      rewrite E; intros H; apply (f_equal priority) in H; discriminate H. }
  split; split.
  - intros H. destruct Hdec as [E | E]; [exact E|].
    rewrite (Hn E) in H. symmetry in H. now apply app_one_neq in H.
  - exact Hd.
  - intros H E. rewrite (Hd E) in H. now apply app_one_neq in H.
  - exact Hn.
Qed.

End Registry.

(** * The code at work

    The properties above, applied to the plain collaborators. *)

Section Runs.

#[local] Existing Instance Plain.collaborators.

Example run_info_ready :
  info (js "ready") false (Plain.world INFO)
  = (Some (js "[12:00:00] INFO ready"),
     mkWorld (mkLogger INFO (js "HH:mm:ss"))
       [(STDOUT, js "[12:00:00] INFO ready")] Plain.noon).
Proof. reflexivity. Qed.

Example run_debug_dropped :
  debug (js "x") false (Plain.world INFO) = (None, Plain.world INFO).
Proof. reflexivity. Qed.

Example run_warn_dropped :
  warn (js "careful") false (Plain.world ERROR) = (None, Plain.world ERROR).
Proof. reflexivity. Qed.

Example run_error_json :
  error (js "hello") true (Plain.world WARN)
  = (Some (Plain.dq (js "{'time':'12:00:00','level':{'name':'error','priority':0,'scope':'stderr'},'message':'hello'}")),
     mkWorld (mkLogger WARN (js "HH:mm:ss"))
       [(STDERR, Plain.dq (js "{'time':'12:00:00','level':{'name':'error','priority':0,'scope':'stderr'},'message':'hello'}"))]
       Plain.noon).
Proof. reflexivity. Qed.

Example run_parseInt :
  parseInt (js "1abc") = Num 1 /\ parseInt (js " +2") = Num 2
  /\ parseInt (js "0x3") = Num 3 /\ parseInt (js "3.7") = Num 3
  /\ parseInt (js "-0") = Num 0 /\ parseInt (js "99") = Num 99
  /\ parseInt (js "debug") = NaN /\ parseInt (js "0x") = NaN.
Proof. repeat split. Qed.

(** Witness of C1: a logger at [warn]. *)
Lemma log_emits_iff_witness :
  logLevel (this (Plain.world WARN)) = WARN
  /\ error (js "m") false (Plain.world WARN)
     = (Some (js "[12:00:00] ERROR m"),
        mkWorld (mkLogger WARN (js "HH:mm:ss"))
          [(STDERR, js "[12:00:00] ERROR m")] Plain.noon)
  /\ warn (js "m") false (Plain.world WARN)
     = (Some (js "[12:00:00] WARN m"),
        mkWorld (mkLogger WARN (js "HH:mm:ss"))
          [(STDERR, js "[12:00:00] WARN m")] Plain.noon)
  /\ info (js "m") false (Plain.world WARN) = (None, Plain.world WARN)
  /\ debug (js "m") false (Plain.world WARN) = (None, Plain.world WARN).
Proof.
  pose proof (proj2 (proj2 (log_emits_iff (Plain.world WARN) INFO (js "m") false))
                eq_refl) as (He & _ & Hw & _ & Hi & Hd).
  split; [reflexivity|].
  split; [exact He|]. split; [exact Hw|]. split; [exact Hi | exact Hd].
Defined.

(** Witness of C2: [debug] under [info] is dropped, [error] is written
    to the standard error. *)
Lemma log_result_witness :
  ((priority INFO >=? priority DEBUG)%Z = false
   /\ log DEBUG (js "m") false (Plain.world INFO) = (None, Plain.world INFO))
  /\ ((priority INFO >=? priority ERROR)%Z = true
      /\ log ERROR (js "m") false (Plain.world INFO)
         = (Some (js "[12:00:00] ERROR m"),
            mkWorld (mkLogger INFO (js "HH:mm:ss"))
              [(STDERR, js "[12:00:00] ERROR m")] Plain.noon)).
Proof.
  split; (split; [reflexivity|]).
  - exact (proj1 (log_result (Plain.world INFO) DEBUG (js "m") false) eq_refl).
  - exact (proj1 (proj1 (proj2 (log_result (Plain.world INFO) ERROR (js "m") false))
                    eq_refl)).
Defined.

(** Witness of C3: [" +2"] is read as 2 and gives [info]. *)
Lemma constructor_resolution_witness :
  parseInt (js " +2") = Num 2
  /\ logLevel (this (constructor (Some (js " +2")) [] Plain.noon)) = INFO.
Proof.
  split; [reflexivity|].
  exact (proj2 (proj2 (proj2 (proj2 (proj2
           (constructor_resolution [] Plain.noon)))))
           (js " +2") 2%Z eq_refl).
Defined.

(** C4 does not hold of the code: ["1abc"] is neither one of ["0"] to
    ["3"] nor a level name, and [parseInt] reads 1 from it, so that the
    logger is at [warn]. *)
Lemma constructor_fallback_counterexample :
  ~ (forall env : jsstring,
       ~ In env [js "0"; js "1"; js "2"; js "3"] ->
       ~ In env [js "error"; js "warn"; js "info"; js "debug"] ->
       logLevel (this (constructor (Some env) [] Plain.noon)) = INFO).
Proof.
  intros H. specialize (H (js "1abc")).
  assert (E : logLevel (this (constructor (Some (js "1abc")) [] Plain.noon)) = WARN)
    by reflexivity.
  rewrite E in H.
  assert (Hw : WARN = INFO).
  { apply H; simpl; intros [F | [F | [F | [F | []]]]]; discriminate F. }
  apply (f_equal priority) in Hw. discriminate Hw.
Qed.

(** Witness of C5: the level [warn], the name ["nonexistent"] and the
    number 99. *)
Lemma lookup_registry_witness :
  (In WARN logLevels
   /\ getLogLevelByName (js "warn") = Some WARN
   /\ getLogLevelByPriority (Num 1) = Some WARN)
  /\ (~ In (js "nonexistent") [js "error"; js "warn"; js "info"; js "debug"]
      /\ getLogLevelByName (js "nonexistent") = None)
  /\ (~ In (Num 99) [Num 0; Num 1; Num 2; Num 3]
      /\ getLogLevelByPriority (Num 99) = None).
Proof.
  assert (H0 : In WARN logLevels) by (simpl; auto).
  assert (H1 : ~ In (js "nonexistent") [js "error"; js "warn"; js "info"; js "debug"]).
  { simpl. intros [F | [F | [F | [F | []]]]]; discriminate F. }
  assert (H2 : ~ In (Num 99) [Num 0; Num 1; Num 2; Num 3]).
  { simpl. intros [F | [F | [F | [F | []]]]]; discriminate F. }
  split; [|split].
  - exact (conj H0 (proj1 lookup_registry WARN H0)).
  - exact (conj H1 (proj1 (proj2 lookup_registry) _ H1)).
  - exact (conj H2 (proj1 (proj2 (proj2 lookup_registry)) _ H2)).
Defined.

(** Witness of C6: with [LOG_LEVEL=debug] the announcement is written,
    with [LOG_LEVEL=1] it is not. *)
Lemma constructor_announcement_witness :
  console (constructor (Some (js "debug")) [] Plain.noon)
  = [(STDOUT, js "[12:00:00] DEBUG Using log level: debug")]
  /\ console (constructor (Some (js "1")) [] Plain.noon) = [].
Proof.
  split.
  - exact (proj2 (proj1 (proj2 (proj2
             (constructor_announcement (Some (js "debug")) [] Plain.noon))))
             eq_refl).
  - apply (proj2 (proj2 (proj2 (proj2
             (constructor_announcement (Some (js "1")) [] Plain.noon))))).
    intros H. apply (f_equal priority) in H. discriminate H.
Defined.

(** Witness of C7: the level [error], of priority 0, and the message
    ["hello"]. *)
Lemma formatJson_record_witness :
  (Z.abs (priority ERROR) < 2 ^ 53)%Z
  /\ fst (formatJson ERROR (js "hello") (Plain.world INFO))
     = Plain.dq (js "{'time':'12:00:00','level':{'name':'error','priority':0,'scope':'stderr'},'message':'hello'}")
  /\ parse (fst (formatJson ERROR (js "hello") (Plain.world INFO)))
     = Some (JObject
               [ (js "time", JString (js "12:00:00"));
                 (js "level",
                  JObject [ (js "name", JString (js "error"));
                            (js "priority", JNumber 0);
                            (js "scope", JString (js "stderr")) ]);
                 (js "message", JString (js "hello")) ]).
Proof.
  assert (H : (Z.abs (priority ERROR) < 2 ^ 53)%Z) by reflexivity.
  split; [exact H|]. split; [reflexivity|].
  exact (proj1 (formatJson_record (Plain.world INFO) ERROR (js "hello") H)).
Defined.

(** Witness of C8: the patterns ["HH:mm"] and ["HH:mm:ss"] give two
    different lines of [format] and the same line of [formatJson]. *)
Lemma timeFormat_influence_witness :
  fst (formatJson INFO (js "m") (snd (setTimeFormat (js "HH:mm") (Plain.world INFO))))
  = fst (formatJson INFO (js "m") (Plain.world INFO))
  /\ fst (format INFO (js "m") false (snd (setTimeFormat (js "HH:mm") (Plain.world INFO))))
     <> fst (format INFO (js "m") false (Plain.world INFO)).
Proof.
  pose proof (timeFormat_influence
                (snd (setTimeFormat (js "HH:mm") (Plain.world INFO)))
                (Plain.world INFO) INFO (js "m") (js "HH:mm")) as (H1 & _ & H3).
  split.
  - exact (H1 eq_refl).
  - intros E. apply (proj1 (H3 eq_refl eq_refl)) in E. discriminate E.
Defined.

End Runs.

(** * Further properties *)

(** ** Arrays and [parseInt] *)

Lemma findIndex_bounds {A} (p : A -> bool) (l : list A) :
  (-1 <= findIndex p l < Z.of_nat (List.length l))%Z.
Proof.
  induction l as [|x t IH]; simpl; [lia|].
  destruct (p x); [lia|].
  destruct (findIndex p t <? 0)%Z eqn:E; [lia|].
  apply Z.ltb_ge in E. lia.
Qed.

Lemma index_cons_succ {A} (x : A) (t : list A) (i : Z) :
  (0 <= i)%Z -> index (x :: t) (i + 1) = index t i.
Proof.
  intros Hi. unfold index.
  replace (i + 1 <? 0)%Z with false by (symmetry; apply Z.ltb_ge; lia).
  replace (i <? 0)%Z with false by (symmetry; apply Z.ltb_ge; lia).
  replace (Z.to_nat (i + 1)) with (S (Z.to_nat i)) by lia.
  reflexivity.
Qed.

Lemma index_findIndex {A} (p : A -> bool) (l : list A) :
  index l (findIndex p l) = find p l.
Proof.
  induction l as [|x t IH]; [reflexivity|].
  cbn [findIndex find]. destruct (p x); [reflexivity|].
  pose proof (findIndex_bounds p t) as Hb.
  destruct (findIndex p t <? 0)%Z eqn:E.
  - rewrite <- IH. apply Z.ltb_lt in E.
    replace (findIndex p t) with (-1)%Z by lia. reflexivity.
  - apply Z.ltb_ge in E. now rewrite index_cons_succ.
Qed.

Lemma findIndex_none {A} (p : A -> bool) (l : list A) :
  findIndex p l = (-1)%Z <-> forall x, In x l -> p x = false.
Proof.
  induction l as [|x t IH]; [simpl; tauto|].
  cbn [findIndex]. pose proof (findIndex_bounds p t) as Hb.
  destruct (p x) eqn:Ex.
  - split; [discriminate|]. intros H.
    rewrite (H x (or_introl eq_refl)) in Ex. discriminate Ex.
  - destruct (findIndex p t <? 0)%Z eqn:E.
    + apply Z.ltb_lt in E. split; [|reflexivity].
      intros _ y [<- | Hy]; [exact Ex|].
      apply IH; [lia | exact Hy].
    + apply Z.ltb_ge in E. split; [lia|]. intros H.
      assert (findIndex p t = (-1)%Z)
        by (apply IH; intros y Hy; apply H; now right).
      lia.
Qed.

(** X1. The idiom [array[array.findIndex(p)]] of the two lookups reads
    the first element that satisfies [p], and [undefined] when there is
    none: [findIndex] is then -1, and it is never beyond the array. *)
Theorem index_findIndex_find {A} (p : A -> bool) (l : list A) :
  index l (findIndex p l) = find p l
  /\ (findIndex p l = (-1)%Z <-> forall x, In x l -> p x = false)
  /\ (-1 <= findIndex p l < Z.of_nat (List.length l))%Z.
Proof.
  split; [apply index_findIndex|].
  split; [apply findIndex_none | apply findIndex_bounds].
Qed.

Lemma trimStart_app ws s :
  Forall (fun c => isStrWhiteSpaceChar c = true) ws ->
  trimStart (ws ++ s) = trimStart s.
Proof.
  induction 1 as [|c ws Hc _ IH]; [reflexivity|].
  cbn [app trimStart]. now rewrite Hc.
Qed.

Lemma parseInt_trimStart s : parseInt s = parseInt (trimStart s).
Proof.
  assert (Hidem : trimStart (trimStart s) = trimStart s).
  { induction s as [|c t IH]; [reflexivity|].
    cbn [trimStart]. destruct (isStrWhiteSpaceChar c) eqn:E; [exact IH|].
    cbn [trimStart]. now rewrite E. }
  unfold parseInt. now rewrite Hidem.
Qed.


Lemma parseInt_digit k t :
  (k <= 9)%N -> afterDigit k t ->
  parseInt ((48 + k)%N :: t) = Num (Z.of_N k).
Proof.
  intros Hk Ht.
  assert (Hcases : In k [0;1;2;3;4;5;6;7;8;9]%N).
  { simpl. lia. }
  destruct t as [|c t'].
  - simpl in Hcases.
    repeat (destruct Hcases as [<- | Hcases]; [reflexivity|]). destruct Hcases.
  - destruct Ht as [Hd Hx]. simpl in Hcases.
    destruct Hcases as [<- | Hcases].
    + destruct (Hx eq_refl) as [H1 H2].
      apply N.eqb_neq in H1, H2.
      unfold parseInt. cbn [trimStart]. 
      change (isStrWhiteSpaceChar (48 + 0)) with false. cbv iota.
      change (48 + 0 =? 45)%N with false. change ((48 + 0 =? 43)%N) with false.
      cbn [orb]. cbv iota. change (48 + 0 =? 48)%N with true. rewrite H1, H2.
      cbn [andb orb]. cbn [radixDigits]. rewrite Hd.
      reflexivity.
    + repeat (destruct Hcases as [<- | Hcases];
        [unfold parseInt; cbn [trimStart];
         match goal with |- context [isStrWhiteSpaceChar ?x] =>
           change (isStrWhiteSpaceChar x) with false end; cbv iota;
         match goal with |- context [(?x =? 45)%N] =>
           change (x =? 45)%N with false; change (x =? 43)%N with false;
           cbn [orb andb]; change (x =? 48)%N with false end;
         cbn [orb andb]; cbn [radixDigits]; rewrite Hd; reflexivity|]).
      destruct Hcases.
Qed.

(** ** The logger *)

Section Further.

Context {C : Collaborators}.

Implicit Types (w : World) (level : LogLevel) (message : jsstring).

Lemma getLogLevelByName_find n :
  getLogLevelByName n = find (fun l => streq (name l) n) logLevels.
Proof. apply index_findIndex. Qed.

Lemma getLogLevelByPriority_find p :
  getLogLevelByPriority p = find (fun l => numeq (Num (priority l)) p) logLevels.
Proof. apply index_findIndex. Qed.

Lemma getLogLevelByName_sound n l :
  getLogLevelByName n = Some l -> In l logLevels /\ name l = n.
Proof.
  rewrite getLogLevelByName_find. intros H. apply find_some in H as [Hin Hn].
  split; [exact Hin | now apply streq_spec].
Qed.

Lemma getLogLevelByPriority_sound p l :
  getLogLevelByPriority p = Some l -> In l logLevels /\ Num (priority l) = p.
Proof.
  rewrite getLogLevelByPriority_find. intros H. apply find_some in H as [Hin Hp].
  split; [exact Hin | now apply numeq_spec].
Qed.

(** X2. A lookup returns a level exactly when that level is in the
    registry and has the name, or the priority, that was asked for. *)
Theorem lookup_sound_complete n p l :
  (getLogLevelByName n = Some l <-> In l logLevels /\ name l = n)
  /\ (getLogLevelByPriority p = Some l <-> In l logLevels /\ Num (priority l) = p).
Proof.
  split; split.
  - apply getLogLevelByName_sound.
  - intros [Hin <-]. now apply getLogLevelByName_registry.
  - apply getLogLevelByPriority_sound.
  - intros [Hin <-]. now apply getLogLevelByPriority_registry.
Qed.

(** X3. In the registry a level sits at the index of its priority:
    looking up an integer is reading the array at it, negative and
    too large integers included, and [NaN] is never found. *)
Theorem getLogLevelByPriority_index (z : Z) :
  getLogLevelByPriority (Num z) = index logLevels z
  /\ getLogLevelByPriority NaN = None.
Proof.
  split; [|reflexivity].
  destruct (Z.ltb_spec z 0) as [Hneg | Hpos].
  - rewrite getLogLevelByPriority_none.
    + unfold index. now replace (z <? 0)%Z with true by (symmetry; apply Z.ltb_lt; lia).
    + simpl. intros [H | [H | [H | [H | []]]]]; injection H as H; lia.
  - destruct (Z.ltb_spec z 4) as [Hlt | Hge].
    + assert (z = 0 \/ z = 1 \/ z = 2 \/ z = 3)%Z as [-> | [-> | [-> | ->]]] by lia;
        reflexivity.
    + rewrite getLogLevelByPriority_none.
      * unfold index.
        replace (z <? 0)%Z with false by (symmetry; apply Z.ltb_ge; lia).
        symmetry. apply nth_error_None. simpl. lia.
      * simpl. intros [H | [H | [H | [H | []]]]]; injection H as H; lia.
Qed.

(** X4. Whatever [LOG_LEVEL] holds, a new logger is at a level of the
    registry, with a priority from 0 to 3 and the time format
    ["HH:mm:ss"]; the constructor keeps what the console held and
    appends at most one line. *)
Theorem constructor_invariant LOG_LEVEL out now :
  let w := constructor LOG_LEVEL out now in
  In (logLevel (this w)) logLevels
  /\ (0 <= priority (logLevel (this w)) <= 3)%Z
  /\ timeFormat (this w) = js "HH:mm:ss"
  /\ clock w = now
  /\ exists written, console w = out ++ written /\ List.length written <= 1.
Proof.
  intros w. subst w.
  pose proof (resolveLogLevel_registry LOG_LEVEL) as Hin.
  rewrite constructor_this. cbn [logLevel timeFormat].
  split; [exact Hin|]. split.
  { apply in_logLevels in Hin. destruct Hin as [-> | [-> | [-> | ->]]]; simpl; lia. }
  split; [reflexivity|].
  unfold constructor, debug. rewrite log_run. cbn [this logLevel console clock].
  destruct (_ >=? _)%Z; cbn [snd clock console].
  - split; [reflexivity|]. eexists. split; [reflexivity | simpl; lia].
  - split; [reflexivity|]. exists []. split; [now rewrite app_nil_r | simpl; lia].
Qed.

(** X5. A new logger is at a level other than [info] exactly when
    [LOG_LEVEL] is the name of that level or [parseInt] reads its
    priority from it. *)
Theorem constructor_selects env out now l :
  In l logLevels -> l <> INFO ->
  (logLevel (this (constructor (Some env) out now)) = l
   <-> env = name l \/ parseInt env = Num (priority l)).
Proof.
  intros Hin Hl. rewrite constructor_this. cbn [logLevel].
  split.
  - unfold resolveLogLevel. destruct env as [|c t]; [intros H; now symmetry in H|].
    destruct (parseInt (c :: t)) as [|n] eqn:E; cbn [isNaN].
    + destruct (getLogLevelByName (c :: t)) as [l'|] eqn:En;
        [|intros H; now symmetry in H].
      intros ->. apply getLogLevelByName_sound in En as [_ <-]. now left.
    + destruct (getLogLevelByPriority (Num n)) as [l'|] eqn:En;
        [|intros H; now symmetry in H].
      intros ->. apply getLogLevelByPriority_sound in En as [_ En].
      right. now rewrite En.
  - intros [-> | E].
    + apply in_logLevels in Hin.
      destruct Hin as [-> | [-> | [-> | ->]]]; reflexivity.
    + unfold resolveLogLevel. destruct env as [|c t]; [discriminate E|].
      rewrite E. cbn [isNaN]. now rewrite getLogLevelByPriority_registry.
Qed.

Lemma parseInt_whitespace ws s :
  Forall (fun c => isStrWhiteSpaceChar c = true) ws ->
  parseInt (ws ++ s) = parseInt s.
Proof.
  intros H. rewrite (parseInt_trimStart (ws ++ s)), (parseInt_trimStart s).
  now rewrite trimStart_app.
Qed.

Lemma resolveLogLevel_number env n :
  parseInt env = Num n ->
  resolveLogLevel (Some env) =
    match getLogLevelByPriority (Num n) with
    | Some l => l
    | None => defaultLogLevel
    end.
Proof.
  intros H. unfold resolveLogLevel. destruct env as [|c t]; [discriminate H|].
  now rewrite H.
Qed.

Lemma resolveLogLevel_unknown env :
  parseInt env = NaN -> ~ In env levelNames ->
  resolveLogLevel (Some env) = INFO.
Proof.
  intros H Hn. unfold resolveLogLevel. destruct env as [|c t]; [reflexivity|].
  rewrite H. cbn [isNaN]. now rewrite getLogLevelByName_none.
Qed.

Lemma whitespace_not_name c t :
  isStrWhiteSpaceChar c = true -> ~ In (c :: t) levelNames.
Proof.
  intros Hc. simpl.
  intros [H | [H | [H | [H | []]]]]; injection H as <- _; discriminate Hc.
Qed.

(** X6. [LOG_LEVEL] selects a level by its priority also when white
    space comes before the digit and other text after it, as long as
    that text does not go on with a digit (or, after 0, with [x]). *)
Theorem constructor_numeric_lenient ws l t out now :
  Forall (fun c => isStrWhiteSpaceChar c = true) ws ->
  In l logLevels ->
  afterDigit (Z.to_N (priority l)) t ->
  logLevel (this (constructor (Some (ws ++ NumberToString (priority l) ++ t)) out now)) = l.
Proof.
  intros Hws Hin Ht. rewrite constructor_this. cbn [logLevel].
  assert (Hp : parseInt (ws ++ NumberToString (priority l) ++ t) = Num (priority l)).
  { rewrite parseInt_whitespace by exact Hws.
    apply in_logLevels in Hin.
    destruct Hin as [-> | [-> | [-> | ->]]];
      match goal with |- parseInt (NumberToString (priority ?x) ++ _) = _ =>
        change (priority x) with (Z.of_N (Z.to_N (priority x)));
        apply (parseInt_digit (Z.to_N (priority x)) t); [simpl; lia | exact Ht]
      end. }
  refine (eq_trans (resolveLogLevel_number _ _ Hp) _).
  now rewrite getLogLevelByPriority_registry.
Qed.

(** X7. A level name is matched as a whole: with white space before it
    or with any text after it, the logger falls back to [info]. *)
Theorem constructor_names_exact ws l t out now :
  Forall (fun c => isStrWhiteSpaceChar c = true) ws ->
  In l logLevels ->
  ws <> [] \/ t <> [] ->
  logLevel (this (constructor (Some (ws ++ name l ++ t)) out now)) = INFO.
Proof.
  intros Hws Hin Hpad. rewrite constructor_this. cbn [logLevel].
  apply in_logLevels in Hin.
  apply resolveLogLevel_unknown.
  - rewrite parseInt_whitespace by exact Hws.
    destruct Hin as [-> | [-> | [-> | ->]]]; reflexivity.
  - destruct ws as [|c ws'].
    + destruct Hpad as [Hpad | Hpad]; [contradiction|].
      destruct t as [|c t']; [contradiction|].
      destruct Hin as [-> | [-> | [-> | ->]]]; simpl;
        intros [H | [H | [H | [H | []]]]]; discriminate H.
    + apply whitespace_not_name. now inversion Hws.
Qed.

(** X8. A [LOG_LEVEL] of white space only, the empty string included,
    gives a logger at [info], and the constructor writes nothing. *)
Theorem constructor_blank ws out now :
  Forall (fun c => isStrWhiteSpaceChar c = true) ws ->
  logLevel (this (constructor (Some ws) out now)) = INFO
  /\ console (constructor (Some ws) out now) = out.
Proof.
  intros Hws.
  assert (Hr : resolveLogLevel (Some ws) = INFO).
  { apply resolveLogLevel_unknown.
    - rewrite <- (app_nil_r ws). now rewrite parseInt_whitespace.
    - destruct ws as [|c ws']; [simpl; intros [H | [H | [H | [H | []]]]]; discriminate H|].
      apply whitespace_not_name. now inversion Hws. }
  split.
  - rewrite constructor_this. exact Hr.
  - unfold constructor, debug. rewrite log_run. cbn [this logLevel].
    rewrite Hr. reflexivity.
Qed.

Lemma log_none_iff level message json w :
  fst (log level message json w) = None
  <-> (priority (logLevel (this w)) < priority level)%Z.
Proof.
  rewrite log_run.
  destruct (priority (logLevel (this w)) >=? priority level)%Z eqn:E; cbn [fst].
  - apply geb_ge in E. split; [discriminate | lia].
  - split; [|reflexivity]. intros _.
    destruct (Z.geb_spec (priority (logLevel (this w))) (priority level)) as [H|H];
      [discriminate E | lia].
Qed.

Lemma registry_eq_priority a b :
  In a logLevels -> In b logLevels -> (a = b <-> priority a = priority b).
Proof.
  rewrite !in_logLevels.
  intros [-> | [-> | [-> | ->]]] [-> | [-> | [-> | ->]]];
    split; intros H; try reflexivity; try discriminate H;
    apply (f_equal priority) in H; discriminate H.
Qed.

(** X9. For a logger at a level of the registry: [error] is always
    emitted, [warn] is dropped exactly at [error], [info] exactly at
    [error] and [warn], and [debug] is emitted exactly at [debug]. *)
Theorem wrappers_filter_table w message json :
  In (logLevel (this w)) logLevels ->
  fst (error message json w) <> None
  /\ (fst (warn message json w) = None <-> logLevel (this w) = ERROR)
  /\ (fst (info message json w) = None
      <-> logLevel (this w) = ERROR \/ logLevel (this w) = WARN)
  /\ (fst (debug message json w) <> None <-> logLevel (this w) = DEBUG).
Proof.
  intros Hin. unfold error, warn, info, debug. rewrite !log_none_iff.
  rewrite !(registry_eq_priority _ _ Hin) by (simpl; auto).
  assert (Hp : (0 <= priority (logLevel (this w)) <= 3)%Z).
  { apply in_logLevels in Hin.
    destruct Hin as [-> | [-> | [-> | ->]]]; simpl; lia. }
  cbn [priority ERROR WARN DEBUG logLevels_at nth logLevels]. lia.
Qed.

Lemma setLogLevel_run a w :
  setLogLevel a w = (tt, mkWorld (mkLogger a (timeFormat (this w))) (console w) (clock w)).
Proof. reflexivity. Qed.

Lemma setTimeFormat_run p w :
  setTimeFormat p w = (tt, mkWorld (mkLogger (logLevel (this w)) p) (console w) (clock w)).
Proof. reflexivity. Qed.

(** X10. Filtering is monotone: when a level is emitted, so is every
    level of lower or equal priority number, and it stays emitted after
    [setLogLevel] to a level of higher or equal priority number. *)
Theorem log_monotone w level level' message message' json json' a :
  (fst (log level message json w) <> None ->
   (priority level' <= priority level)%Z ->
   fst (log level' message' json' w) <> None)
  /\ (fst (log level message json w) <> None ->
      (priority (logLevel (this w)) <= priority a)%Z ->
      fst (log level message json (snd (setLogLevel a w))) <> None).
Proof.
  rewrite !log_none_iff, setLogLevel_run. cbn [snd this logLevel]. split; lia.
Qed.

(** X11. [log] leaves the other stream as it was: the lines of the
    console on a stream other than [level.scope] are unchanged; [error]
    and [warn] never write to the standard output, [info] and [debug]
    never to the standard error. *)
Theorem log_stream w level message json :
  filter (fun e => negb (LogScope_eqb (fst e) (scope level)))
    (console (snd (log level message json w)))
  = filter (fun e => negb (LogScope_eqb (fst e) (scope level))) (console w)
  /\ filter (fun e => LogScope_eqb (fst e) STDOUT)
       (console (snd (error message json w)))
     = filter (fun e => LogScope_eqb (fst e) STDOUT) (console w)
  /\ filter (fun e => LogScope_eqb (fst e) STDOUT)
       (console (snd (warn message json w)))
     = filter (fun e => LogScope_eqb (fst e) STDOUT) (console w)
  /\ filter (fun e => LogScope_eqb (fst e) STDERR)
       (console (snd (info message json w)))
     = filter (fun e => LogScope_eqb (fst e) STDERR) (console w)
  /\ filter (fun e => LogScope_eqb (fst e) STDERR)
       (console (snd (debug message json w)))
     = filter (fun e => LogScope_eqb (fst e) STDERR) (console w).
Proof.
  unfold error, warn, info, debug. rewrite !log_run.
  repeat split;
    match goal with |- context [(?a >=? ?b)%Z] => destruct (a >=? b)%Z end;
    cbn [snd console]; try reflexivity;
    rewrite filter_app; cbn [filter fst];
    try (destruct (scope level)); cbn; now rewrite app_nil_r.
Qed.

(** X12. Two calls of [log], the clock moving between them: the second
    returns what it would have returned alone, the console grows by the
    line of the first and then the line of the second, each on the
    stream of its level, and the logger is left as it was. *)
Theorem log_sequence w l1 m1 j1 l2 m2 j2 later :
  let r1 := fst (log l1 m1 j1 w) in
  let w1 := atClock later (snd (log l1 m1 j1 w)) in
  let r2 := fst (log l2 m2 j2 w1) in
  let w2 := snd (log l2 m2 j2 w1) in
  r2 = fst (log l2 m2 j2 (atClock later w))
  /\ console w2 =
       console w
       ++ match r1 with Some line => [(scope l1, line)] | None => [] end
       ++ match r2 with Some line => [(scope l2, line)] | None => [] end
  /\ this w2 = this w.
Proof.
  cbv zeta. unfold atClock. rewrite !log_run.
  destruct (priority (logLevel (this w)) >=? priority l1)%Z eqn:E1;
    cbn [fst snd this clock console]; rewrite ?log_run; cbn [this clock console];
    destruct (priority (logLevel (this w)) >=? priority l2)%Z eqn:E2;
    cbn [fst snd this clock console];
    rewrite ?format_run, ?formatJson_run; cbn [fst snd this clock console];
    repeat split; rewrite <- ?app_assoc, ?app_nil_r; try reflexivity;
    destruct j2; rewrite ?format_run, ?formatJson_run; reflexivity.
Qed.

(** X13. The last [setLogLevel] and the last [setTimeFormat] win, and
    the two setters commute.  After [setLogLevel a], [log] emits a level
    exactly when [a.priority >= level.priority], whatever the level was
    before.  [setTimeFormat] does not change the line [log] returns in
    JSON mode, and in the other mode the line carries the time of the
    call in the new pattern. *)
Theorem setters_then_log w level message a b p q later :
  snd (setLogLevel b (snd (setLogLevel a w))) = snd (setLogLevel b w)
  /\ snd (setTimeFormat q (snd (setTimeFormat p w))) = snd (setTimeFormat q w)
  /\ snd (setLogLevel a (snd (setTimeFormat p w)))
     = snd (setTimeFormat p (snd (setLogLevel a w)))
  /\ (forall json,
        fst (log level message json (atClock later (snd (setLogLevel a w)))) <> None
        <-> (priority a >= priority level)%Z)
  /\ fst (log level message true (atClock later (snd (setTimeFormat p w))))
     = fst (log level message true (atClock later w))
  /\ fst (log level message false (atClock later (snd (setTimeFormat p w))))
     = if (priority (logLevel (this w)) >=? priority level)%Z
       then Some (js "[" ++ chalk_gray (moment_format later p) ++ js "] "
                    ++ color level (toUpperCase (name level)) ++ js " " ++ message)
       else None.
Proof.
  split; [reflexivity|]. split; [reflexivity|]. split; [reflexivity|].
  unfold atClock. split; [|split].
  - intros json. rewrite log_none_iff, setLogLevel_run. cbn [snd this logLevel]. lia.
  - rewrite !log_run, setTimeFormat_run. cbn [snd this logLevel clock].
    now destruct (_ >=? _)%Z.
  - rewrite log_run, setTimeFormat_run. cbn [snd this logLevel clock].
    destruct (_ >=? _)%Z; reflexivity.
Qed.

Lemma LogScope_value_inj a b : LogScope_value a = LogScope_value b -> a = b.
Proof. destruct a, b; intros H; try reflexivity; discriminate H. Qed.

(** X14. For string messages and levels whose priorities are safe
    integers, the line of [formatJson] determines the record: two equal
    lines come from the same message, the same name, priority and scope
    of the level and the same time. *)
Theorem formatJson_injective w w' level level' message message' :
  (Z.abs (priority level) < 2 ^ 53)%Z ->
  (Z.abs (priority level') < 2 ^ 53)%Z ->
  fst (formatJson level message w) = fst (formatJson level' message' w') ->
  message = message'
  /\ name level = name level'
  /\ priority level = priority level'
  /\ scope level = scope level'
  /\ moment_format (clock w) (js "HH:mm:ss") = moment_format (clock w') (js "HH:mm:ss").
Proof.
  intros _ _.
  rewrite !formatJson_run. cbn [fst]. unfold stringifyObject.
  intros H.
  match type of H with
  | match stringify ?v with _ => _ end = match stringify ?v' with _ => _ end =>
      destruct (parse_stringify v _ eq_refl) as (s & Es & Hparse & _);
      destruct (parse_stringify v' _ eq_refl) as (s' & Es' & Hparse' & _)
  end.
  rewrite Es, Es' in H. subst s'. rewrite Hparse in Hparse'.
  injection Hparse' as Ht Hn Hp Hs Hm.
  apply LogScope_value_inj in Hs. now repeat split.
Qed.

(** X15. The line of [formatJson], and so every line [log] returns in
    JSON mode, holds no control character: every code unit below 32 of
    the message, the name or the time is written as an escape. *)
Theorem formatJson_printable w level message :
  Forall (fun c => 32 <= c)%N (fst (formatJson level message w))
  /\ (forall line, fst (log level message true w) = Some line ->
      Forall (fun c => 32 <= c)%N line).
Proof.
  assert (H : Forall (fun c => 32 <= c)%N (fst (formatJson level message w))).
  { rewrite formatJson_run. cbn [fst]. unfold stringifyObject.
    match goal with |- context [stringify ?v] =>
      destruct (parse_stringify v _ eq_refl) as (s & -> & _ & Hprint)
    end.
    exact Hprint. }
  split; [exact H|].
  intros line. rewrite log_run. destruct (_ >=? _)%Z; [|discriminate].
  cbn [fst]. intros E. injection E as <-. exact H.
Qed.

End Further.

(** * The further properties at work *)

Section FurtherRuns.

#[local] Existing Instance Plain.collaborators.

(** Witness of X5: ["0x3"] is read as 3 and selects [debug]. *)
Lemma constructor_selects_witness :
  In DEBUG logLevels /\ DEBUG <> INFO
  /\ parseInt (js "0x3") = Num 3
  /\ logLevel (this (constructor (Some (js "0x3")) [] Plain.noon)) = DEBUG.
Proof.
  assert (H1 : In DEBUG logLevels) by (simpl; auto).
  assert (H2 : DEBUG <> INFO).
  { intros E. apply (f_equal priority) in E. discriminate E. }
  assert (H3 : parseInt (js "0x3") = Num 3) by reflexivity.
  split; [exact H1|]. split; [exact H2|]. split; [exact H3|].
  exact (proj2 (constructor_selects (js "0x3") [] Plain.noon DEBUG H1 H2) (or_intror H3)).
Defined.

(** Witness of X6: two spaces, the digit of [info] and a word. *)
Lemma constructor_numeric_lenient_witness :
  Forall (fun c => isStrWhiteSpaceChar c = true) (js "  ")
  /\ In INFO logLevels
  /\ afterDigit 2 (js " apples")
  /\ logLevel (this (constructor (Some (js "  2 apples")) [] Plain.noon)) = INFO.
Proof.
  assert (H1 : Forall (fun c => isStrWhiteSpaceChar c = true) (js "  ")).
  { repeat constructor. }
  assert (H2 : In INFO logLevels) by (simpl; auto).
  assert (H3 : afterDigit 2 (js " apples")).
  { split; [reflexivity | discriminate]. }
  split; [exact H1|]. split; [exact H2|]. split; [exact H3|].
  exact (constructor_numeric_lenient (js "  ") INFO (js " apples") [] Plain.noon
           H1 H2 H3).
Defined.

(** Witness of X7: [" debug"] and ["debugger"]. *)
Lemma constructor_names_exact_witness :
  logLevel (this (constructor (Some (js " debug")) [] Plain.noon)) = INFO
  /\ logLevel (this (constructor (Some (js "debugger")) [] Plain.noon)) = INFO.
Proof.
  assert (H1 : Forall (fun c => isStrWhiteSpaceChar c = true) (js " ")).
  { repeat constructor. }
  assert (H2 : In DEBUG logLevels) by (simpl; auto).
  split.
  - refine (constructor_names_exact (js " ") DEBUG [] [] Plain.noon H1 H2 _).
    left. discriminate.
  - refine (constructor_names_exact [] DEBUG (js "ger") [] Plain.noon
              (Forall_nil _) H2 _).
    right. discriminate.
Defined.

(** Witness of X8: a tab and a space. *)
Lemma constructor_blank_witness :
  Forall (fun c => isStrWhiteSpaceChar c = true) [9; 32]%N
  /\ logLevel (this (constructor (Some [9; 32]%N) [] Plain.noon)) = INFO
  /\ console (constructor (Some [9; 32]%N) [] Plain.noon) = [].
Proof.
  assert (H1 : Forall (fun c => isStrWhiteSpaceChar c = true) [9; 32]%N).
  { repeat constructor. }
  exact (conj H1 (constructor_blank [9; 32]%N [] Plain.noon H1)).
Defined.

(** Witness of X9: a logger at [info]. *)
Lemma wrappers_filter_table_witness :
  In (logLevel (this (Plain.world INFO))) logLevels
  /\ fst (error (js "m") false (Plain.world INFO)) <> None
  /\ fst (debug (js "m") false (Plain.world INFO)) = None.
Proof.
  assert (H1 : In (logLevel (this (Plain.world INFO))) logLevels)
    by (simpl; auto).
  split; [exact H1|].
  split.
  - exact (proj1 (wrappers_filter_table (Plain.world INFO) (js "m") false H1)).
  - reflexivity.
Defined.

(** Witness of X10: [warn] is emitted at [info], hence so is [error],
    and [warn] stays emitted at [debug]. *)
Lemma log_monotone_witness :
  fst (log WARN (js "m") false (Plain.world INFO)) <> None
  /\ fst (log ERROR (js "n") true (Plain.world INFO)) <> None
  /\ fst (log WARN (js "m") false (snd (setLogLevel DEBUG (Plain.world INFO))))
     <> None.
Proof.
  assert (H1 : fst (log WARN (js "m") false (Plain.world INFO)) <> None)
    by discriminate.
  pose proof (log_monotone (Plain.world INFO) WARN ERROR (js "m") (js "n")
                false true DEBUG) as [Ha Hb].
  split; [exact H1|]. split.
  - apply (Ha H1). simpl. lia.
  - apply (Hb H1). simpl. lia.
Defined.

(** Witness of X14: the level [info] and a level a caller built with
    another style, in two worlds whose loggers differ: the lines are
    equal. *)
Lemma formatJson_injective_witness :
  (Z.abs (priority INFO) < 2 ^ 53)%Z
  /\ (Z.abs (priority (mkLogLevel (js "info") (fun s => s ++ js "!") 2 STDOUT))
      < 2 ^ 53)%Z
  /\ fst (formatJson INFO (js "m") (Plain.world INFO))
     = fst (formatJson (mkLogLevel (js "info") (fun s => s ++ js "!") 2 STDOUT)
              (js "m") (snd (setTimeFormat (js "HH:mm") (Plain.world ERROR))))
  /\ name INFO = js "info" /\ priority INFO = 2%Z /\ scope INFO = STDOUT.
Proof.
  assert (H1 : (Z.abs (priority INFO) < 2 ^ 53)%Z) by reflexivity.
  assert (H2 : (Z.abs (priority (mkLogLevel (js "info") (fun s => s ++ js "!") 2 STDOUT))
                < 2 ^ 53)%Z) by reflexivity.
  assert (H3 : fst (formatJson INFO (js "m") (Plain.world INFO))
               = fst (formatJson (mkLogLevel (js "info") (fun s => s ++ js "!") 2 STDOUT)
                        (js "m") (snd (setTimeFormat (js "HH:mm") (Plain.world ERROR)))))
    by reflexivity.
  pose proof (formatJson_injective (Plain.world INFO)
                (snd (setTimeFormat (js "HH:mm") (Plain.world ERROR)))
                INFO (mkLogLevel (js "info") (fun s => s ++ js "!") 2 STDOUT)
                (js "m") (js "m") H1 H2 H3) as (_ & Hn & Hp & Hs & _).
  split; [exact H1|]. split; [exact H2|]. split; [exact H3|].
  split; [exact Hn|]. split; [exact Hp | exact Hs].
Defined.

(** Witness of X15: a message with an escape character and a line
    feed. *)
Lemma formatJson_printable_witness :
  fst (log ERROR [27; 10]%N true (Plain.world INFO))
  = Some (Plain.dq (js "{'time':'12:00:00','level':{'name':'error','priority':0,'scope':'stderr'},'message':'\u001b\n'}"))
  /\ Forall (fun c => 32 <= c)%N
       (Plain.dq (js "{'time':'12:00:00','level':{'name':'error','priority':0,'scope':'stderr'},'message':'\u001b\n'}")).
Proof.
  assert (H1 : fst (log ERROR [27; 10]%N true (Plain.world INFO))
               = Some (Plain.dq (js "{'time':'12:00:00','level':{'name':'error','priority':0,'scope':'stderr'},'message':'\u001b\n'}")))
    by reflexivity.
  exact (conj H1 (proj2 (formatJson_printable (Plain.world INFO) ERROR [27; 10]%N)
                    _ H1)).
Defined.

End FurtherRuns.
